(** * DatabaseWithOwnTablesBase: the in-memory catalog of one database

    A shallow embedding of [dbms/src/Databases/DatabasesCommon.cpp].

    The C++ class owns a [std::map] from table names to shared storage
    pointers, a [std::set] of dictionary names and one non-recursive mutex.
    Its member functions are embedded as computations of a small monad that
    threads the object's fields and the heap of snapshot iterators, may end
    in a thrown exception, and records every mutex operation and every call
    into an external collaborator (the dictionaries loader, the
    [StorageDictionary] factory, a storage's [shutdown]) in an event trace.

    What the embedding takes for granted:
    - one thread: a trace is the trace of one call, so the mutex shows up
      as the lock and unlock events of that call;
    - a [StoragePtr] is compared by the identity of the object it points
      to, never null;
    - within one call the loader answers [tryGetDictionary] as a function
      of the qualified name, without throwing; [reload] and a storage's
      [shutdown] may throw; a filter is a total function to [bool];
      reading the configuration does not throw;
    - no collaborator (the loader, a filter, a storage's [shutdown]) calls
      back into the database object while the call that invoked it is
      running. *)

From stdpp Require Import gmap strings list fin_maps sorting.

Local Open Scope string_scope.
Local Open Scope list_scope.

(** ** Vocabulary shared with the rest of the server *)

Module ErrorCodes.
(** The [extern const int] codes the file declares. *)
Inductive ErrorCode : Set :=
| EMPTY_LIST_OF_COLUMNS_PASSED
| TABLE_ALREADY_EXISTS
| UNKNOWN_TABLE
| LOGICAL_ERROR
| DICTIONARY_ALREADY_EXISTS.
End ErrorCodes.
Export ErrorCodes.

#[global] Instance ErrorCode_eq_dec : EqDecision ErrorCode.
Proof. solve_decision. Defined.

(** [DB::Exception (message, code)]. *)
Record Exception : Set := mkException { message : string; code : ErrorCode }.

#[global] Instance Exception_eq_dec : EqDecision Exception.
Proof. solve_decision. Defined.

(** A list of column names with the names of their types. *)
Abbreviation NamesAndTypesList := (list (string * string)).

Inductive ColumnsDescription : Set :=
| mkColumnsDescription (columns : NamesAndTypesList).

#[global] Instance ColumnsDescription_eq_dec : EqDecision ColumnsDescription.
Proof. solve_decision. Defined.

(** What a [StoragePtr] points to.  A storage engine object made elsewhere
    in the server is opaque here and known by its identity only; a
    [StorageDictionary] carries the constructor arguments that
    [getDictionaryStorage] passes to [StorageDictionary::create] (the
    [Context] reference apart). *)
Inductive IStorage : Set :=
| Storage (id : nat)
| StorageDictionary (database_name table_name : string)
    (columns : ColumnsDescription) (attach : bool) (dictionary_name : string).

Abbreviation StoragePtr := IStorage.

#[global] Instance IStorage_eq_dec : EqDecision IStorage.
Proof. solve_decision. Defined.

(** [using Tables = std::map<String, StoragePtr>] and
    [using Dictionaries = std::set<String>]. *)
Abbreviation Tables := (gmap string StoragePtr).
Abbreviation Dictionaries := (gset string).

(** [std::function<bool(const String &)>]; an empty function object is [None]. *)
Abbreviation FilterByNameFunction := (option (string → bool)).

(** ** Iteration in key order

    [std::map] and [std::set] are traversed in increasing key order, which
    for [std::string] is the lexicographic order on bytes. *)

Definition String_le (a b : string) : Prop := String.leb a b = true.

#[global] Instance String_le_dec a b : Decision (String_le a b).
Proof. unfold String_le. apply _. Defined.

Definition key_le {V : Type} (a b : string * V) : Prop := String_le a.1 b.1.

#[global] Instance key_le_dec {V} (a b : string * V) : Decision (key_le a b).
Proof. unfold key_le. apply _. Defined.

(** The entries of a map, as a range-based [for] visits them. *)
Definition entries {V : Type} (m : gmap string V) : list (string * V) :=
  merge_sort key_le (map_to_list m).

(** The members of a set, as a range-based [for] visits them. *)
Definition members (s : Dictionaries) : list string :=
  merge_sort String_le (elements s).

#[global] Instance String_le_total : Total String_le.
Proof. intros a b. apply String.leb_total. Qed.

#[global] Instance key_le_total {V} : Total (@key_le V).
Proof. intros a b. apply String.leb_total. Qed.

(** [std::map::emplace]: inserts unless the key is present; the flag tells
    whether the insertion took place. *)
Definition map_emplace {V : Type} (k : string) (v : V) (m : gmap string V)
  : gmap string V * bool :=
  match m !! k with
  | Some _ => (m, false)
  | None => (<[k := v]> m, true)
  end.

(** [std::set::emplace]. *)
Definition set_emplace (k : string) (s : Dictionaries) : Dictionaries * bool :=
  if decide (k ∈ s) then (s, false) else ({[k]} ∪ s, true).

(** ** The object, the heap and the trace *)

(** The fields of [DatabaseWithOwnTablesBase] (the mutex apart: its use is
    recorded in the trace). *)
Record DatabaseWithOwnTablesBase : Set := mkDatabase {
  name : string;
  tables : Tables;
  dictionaries : Dictionaries
}.

(** Modelled from the spec: the snapshot iterator classes
    [DatabaseTablesSnapshotIterator] and [DatabaseDictionariesSnapshotIterator]
    are declared in headers that are not part of the file.  The
    specification describes a snapshot iterator as an immutable,
    point-in-time copy of a name-to-handle (or name-only) mapping: the
    object holds its own copy of the container it is constructed from. *)
Inductive SnapshotIterator : Set :=
| DatabaseTablesSnapshotIterator (tables_ : Tables)
| DatabaseDictionariesSnapshotIterator (dictionaries_ : Dictionaries).

(** A [std::unique_ptr] to a snapshot iterator: the address of the object
    in the heap. *)
Abbreviation DatabaseTablesIteratorPtr := nat.
Abbreviation DatabaseDictionariesIteratorPtr := nat.

Record Machine : Set := mkMachine {
  this : DatabaseWithOwnTablesBase;
  heap : list SnapshotIterator
}.

Inductive Event : Set :=
| mutex_lock
| mutex_unlock
| call_tryGetDictionary (dict_name : string)
| call_StorageDictionary_create (view : StoragePtr)
| call_reload (dict_name : string) (load_never_loading : bool)
| call_shutdown (table : StoragePtr).

#[global] Instance Event_eq_dec : EqDecision Event.
Proof. solve_decision. Defined.

Inductive Outcome (A : Type) : Type :=
| Returned (a : A)
| Thrown (e : Exception).
Arguments Returned {A} a.
Arguments Thrown {A} e.

(** A member function: from the machine before the call to how the call
    ends, the machine after it and the events of the call, oldest first. *)
Definition M (A : Type) : Type := Machine → Outcome A * Machine * list Event.

Definition ret {A} (a : A) : M A := λ m, (Returned a, m, []).

Definition bind {A B} (c : M A) (k : A → M B) : M B := λ m,
  match c m with
  | (Returned a, m', t) => let '(r, m'', t') := k a m' in (r, m'', t ++ t')
  | (Thrown e, m', t) => (Thrown e, m', t)
  end.

#[global] Instance M_ret : MRet M := @ret.
#[global] Instance M_bind : MBind M := λ A B k c, bind c k.

(** [throw Exception(...)]. *)
Definition throw {A} (e : Exception) : M A := λ m, (Thrown e, m, []).

Definition emit (ev : Event) : M () := λ m, (Returned (), m, [ev]).

Definition get_this : M DatabaseWithOwnTablesBase := λ m, (Returned (this m), m, []).

Definition set_tables (new_tables : Tables) : M () := λ m,
  (Returned (),
   {| this := {| name := name (this m); tables := new_tables;
                 dictionaries := dictionaries (this m) |};
      heap := heap m |}, []).

Definition set_dictionaries (new_dictionaries : Dictionaries) : M () := λ m,
  (Returned (),
   {| this := {| name := name (this m); tables := tables (this m);
                 dictionaries := new_dictionaries |};
      heap := heap m |}, []).

(** [std::lock_guard lock(mutex)] over the rest of its block: the mutex is
    locked on entry and unlocked when the block is left, by a [return] or
    by an exception alike. *)
Definition lock_guard {A} (block : M A) : M A := λ m,
  let '(r, m', t) := block m in (r, m', mutex_lock :: t ++ [mutex_unlock]).

(** [std::make_unique<...>(container)]: a new object at the next free
    address. *)
Definition make_unique (obj : SnapshotIterator) : M nat := λ m,
  (Returned (length (heap m)),
   {| this := this m; heap := heap m ++ [obj] |}, []).

(** A call into a collaborator that either returns or throws. *)
Definition external_call (ev : Event) (result : option Exception) : M () :=
  _ ← emit ev;
  match result with
  | None => ret ()
  | Some e => throw e
  end.

(** A range-based [for] whose body updates one local variable. *)
Fixpoint for_each {A S : Type} (range : list A) (body : A → S → M S) (local : S) : M S :=
  match range with
  | [] => ret local
  | x :: range' => local' ← body x local; for_each range' body local'
  end.

(** How a call ended, where it left the machine, and what it did. *)
Definition outcome {A} (c : M A) (m : Machine) : Outcome A := (c m).1.1.
Definition after {A} (c : M A) (m : Machine) : Machine := (c m).1.2.
Definition events {A} (c : M A) (m : Machine) : list Event := (c m).2.

(** ** The member functions *)

(** Poco's configuration, restricted to its boolean keys; [getBool] with a
    default value. *)
Abbreviation AbstractConfiguration := (gmap string bool).

Definition getBool (config : AbstractConfiguration) (key : string) (default_value : bool) : bool :=
  default default_value (config !! key).

Section Members.

(** The dictionary objects, their structure and the column list derived
    from it belong to the dictionaries code. *)
Context {IDictionaryBase DictionaryStructure : Type}.
Variable getStructure : IDictionaryBase → DictionaryStructure.
Variable getNamesAndTypes : DictionaryStructure → NamesAndTypesList.

(** The virtual [IStorage::shutdown] of a storage either returns ([None])
    or throws. *)
Variable IStorage_shutdown : StoragePtr → option Exception.

(** The loader answers [tryGetDictionary] with a dictionary or with a null
    pointer; its [reload] either returns ([None]) or throws. *)
Record ExternalDictionariesLoader : Type := {
  tryGetDictionary : string → option IDictionaryBase;
  reload : string → bool → option Exception
}.

Record Context : Type := {
  getExternalDictionariesLoader : ExternalDictionariesLoader;
  getConfigRef : AbstractConfiguration
}.

Definition getDatabaseName (db : DatabaseWithOwnTablesBase) : string := name db.

Definition StorageDictionary_create (database_name table_name : string)
    (columns : ColumnsDescription) (attach : bool) (dictionary_name : string) : M StoragePtr :=
  let view := StorageDictionary database_name table_name columns attach dictionary_name in
  _ ← emit (call_StorageDictionary_create view);
  mret view.

Definition getDictionaryStorage (context : Context) (table_name db_name : string)
  : M (option StoragePtr) :=
  let dict_name := db_name +:+ "." +:+ table_name in
  _ ← emit (call_tryGetDictionary dict_name);
  let dict_ptr := tryGetDictionary (getExternalDictionariesLoader context) dict_name in
  match dict_ptr with
  | Some dict =>
      let dictionary_structure := getStructure dict in
      let columns := getNamesAndTypes dictionary_structure in
      view ← StorageDictionary_create db_name table_name (mkColumnsDescription columns) true dict_name;
      mret (Some view)
  | None => mret None
  end.

(** The view [getDictionaryStorage] builds for dictionary [n] of database
    [db_name] out of the dictionary object the loader returned. *)
Definition view_of (db_name n : string) (dict : IDictionaryBase) : StoragePtr :=
  StorageDictionary db_name n
    (mkColumnsDescription (getNamesAndTypes (getStructure dict))) true (db_name +:+ "." +:+ n).

(** The view that [getDictionaryStorage] yields for dictionary name [n]
    when [n] passes the filter and the loader has the dictionary. *)
Definition dictionary_view (context : Context) (db : DatabaseWithOwnTablesBase)
    (pass : string → bool) (n : string) : option StoragePtr :=
  if pass n
  then view_of (name db) n
         <$> tryGetDictionary (getExternalDictionariesLoader context) (name db +:+ "." +:+ n)
  else None.

Definition isTableExist (context : Context) (table_name : string) : M bool :=
  lock_guard (
    db ← get_this;
    mret (bool_decide (table_name ∈ dom (tables db))
          || bool_decide (table_name ∈ dictionaries db))).

Definition isDictionaryExist (context : Context) (dictionary_name : string) : M bool :=
  lock_guard (
    db ← get_this;
    mret (bool_decide (dictionary_name ∈ dictionaries db))).

Definition tryGetTable (context : Context) (table_name : string) : M (option StoragePtr) :=
  lock_guard (
    db ← get_this;
    match tables db !! table_name with
    | None =>
        if bool_decide (table_name ∈ dictionaries db)
        then getDictionaryStorage context table_name (getDatabaseName db)
        else mret None
    | Some storage => mret (Some storage)
    end).

(** The loop [for (name, storage) in tables: if filter(name): emplace]. *)
Definition filter_tables (filter_by_table_name : string → bool) (tables_ : Tables) : Tables :=
  foldl (λ filtered_tables kv,
           if filter_by_table_name kv.1
           then (map_emplace kv.1 kv.2 filtered_tables).1
           else filtered_tables)
        ∅ (entries tables_).

(** The loop [for name in dictionaries: if filter(name): emplace]. *)
Definition filter_dictionaries (filter_by_dictionary_name : string → bool)
    (dictionaries_ : Dictionaries) : Dictionaries :=
  foldl (λ filtered_dictionaries dictionary_name,
           if filter_by_dictionary_name dictionary_name
           then (set_emplace dictionary_name filtered_dictionaries).1
           else filtered_dictionaries)
        ∅ (members dictionaries_).

(** The body shared by the two loops over [dictionaries] in
    [getTablesWithDictionaryTablesIterator]: build the view and, when there
    is one, emplace it into [tables_copy]. *)
Definition emplace_dictionary_storage (context : Context) (db : DatabaseWithOwnTablesBase)
    (dictionary_name : string) (tables_copy : Tables) : M Tables :=
  dictionary_storage ← getDictionaryStorage context dictionary_name (getDatabaseName db);
  match dictionary_storage with
  | Some storage => mret (map_emplace dictionary_name storage tables_copy).1
  | None => mret tables_copy
  end.

Definition getTablesWithDictionaryTablesIterator (context : Context)
    (filter_by_table_name : FilterByNameFunction) : M DatabaseTablesIteratorPtr :=
  lock_guard (
    db ← get_this;
    let tables_copy := tables db in
    match filter_by_table_name with
    | None =>
        tables_copy ← for_each (members (dictionaries db))
                        (emplace_dictionary_storage context db) tables_copy;
        make_unique (DatabaseTablesSnapshotIterator tables_copy)
    | Some filter =>
        let filtered_tables := filter_tables filter (tables db) in
        tables_copy ← for_each (members (dictionaries db))
                        (λ dictionary_name tables_copy,
                           if filter dictionary_name
                           then emplace_dictionary_storage context db dictionary_name tables_copy
                           else mret tables_copy)
                        tables_copy;
        make_unique (DatabaseTablesSnapshotIterator filtered_tables)
    end).

Definition getTablesIterator (context : Context)
    (filter_by_table_name : FilterByNameFunction) : M DatabaseTablesIteratorPtr :=
  lock_guard (
    db ← get_this;
    match filter_by_table_name with
    | None => make_unique (DatabaseTablesSnapshotIterator (tables db))
    | Some filter =>
        let filtered_tables := filter_tables filter (tables db) in
        make_unique (DatabaseTablesSnapshotIterator filtered_tables)
    end).

Definition getDictionariesIterator (context : Context)
    (filter_by_dictionary_name : FilterByNameFunction) : M DatabaseDictionariesIteratorPtr :=
  lock_guard (
    db ← get_this;
    match filter_by_dictionary_name with
    | None => make_unique (DatabaseDictionariesSnapshotIterator (dictionaries db))
    | Some filter =>
        let filtered_dictionaries := filter_dictionaries filter (dictionaries db) in
        make_unique (DatabaseDictionariesSnapshotIterator filtered_dictionaries)
    end).

Definition empty (context : Context) : M bool :=
  lock_guard (
    db ← get_this;
    mret (bool_decide (tables db = ∅) && bool_decide (dictionaries db = ∅))).

Definition detachTable (table_name : string) : M StoragePtr :=
  res ← lock_guard (
    db ← get_this;
    if bool_decide (table_name ∈ dictionaries db)
    then throw (mkException
                  ("Cannot detach dictionary " +:+ name db +:+ "." +:+ table_name
                   +:+ " as table, use DETACH DICTIONARY query.") UNKNOWN_TABLE)
    else
      match tables db !! table_name with
      | None => throw (mkException
                         ("Table " +:+ name db +:+ "." +:+ table_name +:+ " doesn't exist.")
                         UNKNOWN_TABLE)
      | Some res =>
          _ ← set_tables (delete table_name (tables db));
          mret res
      end);
  mret res.

Definition detachDictionary (dictionary_name : string) (context : Context) : M () :=
  _ ← lock_guard (
    db ← get_this;
    if bool_decide (dictionary_name ∈ dictionaries db)
    then set_dictionaries (dictionaries db ∖ {[dictionary_name]})
    else throw (mkException
                  ("Dictionary " +:+ name db +:+ "." +:+ dictionary_name +:+ " doesn't exist.")
                  UNKNOWN_TABLE));
  db ← get_this;
  let dict_name := getDatabaseName db +:+ "." +:+ dictionary_name in
  external_call (call_reload dict_name true)
                (reload (getExternalDictionariesLoader context) dict_name true).

Definition attachTable (table_name : string) (table : StoragePtr) : M () :=
  lock_guard (
    db ← get_this;
    let '(tables_, inserted) := map_emplace table_name table (tables db) in
    _ ← set_tables tables_;
    if negb inserted
    then throw (mkException
                  ("Table " +:+ name db +:+ "." +:+ table_name +:+ " already exists.")
                  TABLE_ALREADY_EXISTS)
    else mret ()).

Definition attachDictionary (dictionary_name : string) (context : Context) (load : bool) : M () :=
  _ ← lock_guard (
    db ← get_this;
    let '(dictionaries_, inserted) := set_emplace dictionary_name (dictionaries db) in
    _ ← set_dictionaries dictionaries_;
    if negb inserted
    then throw (mkException
                  ("Dictionary " +:+ name db +:+ "." +:+ dictionary_name +:+ " already exists.")
                  DICTIONARY_ALREADY_EXISTS)
    else mret ());
  if load
  then
    let lazy_load := getBool (getConfigRef context) "dictionaries_lazy_load" true in
    db ← get_this;
    let dict_name := getDatabaseName db +:+ "." +:+ dictionary_name in
    external_call (call_reload dict_name (negb lazy_load))
                  (reload (getExternalDictionariesLoader context) dict_name (negb lazy_load))
  else mret ().

Definition shutdown : M () :=
  tables_snapshot ← lock_guard (db ← get_this; mret (tables db));
  _ ← for_each (entries tables_snapshot)
        (λ kv _, external_call (call_shutdown kv.2) (IStorage_shutdown kv.2)) ();
  lock_guard (
    _ ← set_tables ∅;
    set_dictionaries ∅).

(** ** The calls a client can make *)

Inductive Call : Type :=
| invoke_isTableExist (context : Context) (table_name : string)
| invoke_isDictionaryExist (context : Context) (dictionary_name : string)
| invoke_tryGetTable (context : Context) (table_name : string)
| invoke_getTablesWithDictionaryTablesIterator (context : Context) (filter : FilterByNameFunction)
| invoke_getTablesIterator (context : Context) (filter : FilterByNameFunction)
| invoke_getDictionariesIterator (context : Context) (filter : FilterByNameFunction)
| invoke_empty (context : Context)
| invoke_detachTable (table_name : string)
| invoke_detachDictionary (dictionary_name : string) (context : Context)
| invoke_attachTable (table_name : string) (table : StoragePtr)
| invoke_attachDictionary (dictionary_name : string) (context : Context) (load : bool)
| invoke_shutdown.

(** A call with its result dropped: the machine after it and its events. *)
Definition discard {A} (c : M A) (m : Machine) : Machine * list Event :=
  (after c m, events c m).

Definition perform (c : Call) : Machine → Machine * list Event :=
  match c with
  | invoke_isTableExist context table_name => discard (isTableExist context table_name)
  | invoke_isDictionaryExist context dictionary_name =>
      discard (isDictionaryExist context dictionary_name)
  | invoke_tryGetTable context table_name => discard (tryGetTable context table_name)
  | invoke_getTablesWithDictionaryTablesIterator context filter =>
      discard (getTablesWithDictionaryTablesIterator context filter)
  | invoke_getTablesIterator context filter => discard (getTablesIterator context filter)
  | invoke_getDictionariesIterator context filter =>
      discard (getDictionariesIterator context filter)
  | invoke_empty context => discard (empty context)
  | invoke_detachTable table_name => discard (detachTable table_name)
  | invoke_detachDictionary dictionary_name context =>
      discard (detachDictionary dictionary_name context)
  | invoke_attachTable table_name table => discard (attachTable table_name table)
  | invoke_attachDictionary dictionary_name context load =>
      discard (attachDictionary dictionary_name context load)
  | invoke_shutdown => discard shutdown
  end.

(** A client's calls one after the other. *)
Definition perform_all (calls : list Call) (m : Machine) : Machine :=
  foldl (λ m c, (perform c m).1) m calls.

End Members.

Arguments ExternalDictionariesLoader : clear implicits.
Arguments Context : clear implicits.
Arguments Call : clear implicits.

(** ** The exceptions of the file *)

Definition table_already_exists (db : DatabaseWithOwnTablesBase) (n : string) : Exception :=
  mkException ("Table " +:+ name db +:+ "." +:+ n +:+ " already exists.") TABLE_ALREADY_EXISTS.

Definition dictionary_already_exists (db : DatabaseWithOwnTablesBase) (n : string) : Exception :=
  mkException ("Dictionary " +:+ name db +:+ "." +:+ n +:+ " already exists.")
              DICTIONARY_ALREADY_EXISTS.

Definition cannot_detach_dictionary (db : DatabaseWithOwnTablesBase) (n : string) : Exception :=
  mkException ("Cannot detach dictionary " +:+ name db +:+ "." +:+ n
               +:+ " as table, use DETACH DICTIONARY query.") UNKNOWN_TABLE.

Definition table_does_not_exist (db : DatabaseWithOwnTablesBase) (n : string) : Exception :=
  mkException ("Table " +:+ name db +:+ "." +:+ n +:+ " doesn't exist.") UNKNOWN_TABLE.

Definition dictionary_does_not_exist (db : DatabaseWithOwnTablesBase) (n : string) : Exception :=
  mkException ("Dictionary " +:+ name db +:+ "." +:+ n +:+ " doesn't exist.") UNKNOWN_TABLE.

(** ** Lock discipline over a trace *)

Definition is_tryGetDictionary (e : Event) : bool :=
  match e with call_tryGetDictionary _ => true | _ => false end.

Definition is_reload (e : Event) : bool :=
  match e with call_reload _ _ => true | _ => false end.

Definition is_dictionaries_loader_call (e : Event) : bool :=
  is_tryGetDictionary e || is_reload e.

Definition is_storage_shutdown (e : Event) : bool :=
  match e with call_shutdown _ => true | _ => false end.

(** Walk a trace keeping track of whether the mutex is held, and check
    every other event against [allowed]. *)
Fixpoint lock_discipline (allowed : bool → Event → bool) (held : bool) (t : list Event) : bool :=
  match t with
  | [] => true
  | mutex_lock :: t' => lock_discipline allowed true t'
  | mutex_unlock :: t' => lock_discipline allowed false t'
  | e :: t' => allowed held e && lock_discipline allowed held t'
  end.

(** Whether the mutex is held at the end of a trace. *)
Fixpoint held_after (held : bool) (t : list Event) : bool :=
  match t with
  | [] => held
  | mutex_lock :: t' => held_after true t'
  | mutex_unlock :: t' => held_after false t'
  | _ :: t' => held_after held t'
  end.

(** No event of the kind [P] happens while the mutex is held (the trace
    starts with the mutex free). *)
Definition never_under_lock (P : Event → bool) (t : list Event) : bool :=
  lock_discipline (λ held e, negb (held && P e)) false t.

(** Every event of the kind [P] happens while the mutex is held. *)
Definition only_under_lock (P : Event → bool) (t : list Event) : bool :=
  lock_discipline (λ held e, implb (P e) held) false t.

(** A computation respects the discipline from a given state of the mutex
    when its trace passes the check and leaves the mutex in that state. *)
Definition respects {A} (allowed : bool → Event → bool) (held : bool) (c : M A) : Prop :=
  ∀ m, lock_discipline allowed held (events c m) = true
       ∧ held_after held (events c m) = held.

(** What the calls do to the mutex around the collaborators, call by call:
    [reload] and a storage's [shutdown] are reached with the mutex free,
    [tryGetDictionary] with the mutex held. *)
Definition reload_and_shutdown_outside : bool → Event → bool :=
  λ held e, negb (held && (is_reload e || is_storage_shutdown e)).

Definition tryGetDictionary_inside : bool → Event → bool :=
  λ held e, implb (is_tryGetDictionary e) held.

(** The storages whose [shutdown] a trace invokes, in order. *)
Definition shutdown_calls (t : list Event) : list StoragePtr :=
  omap (λ e, match e with call_shutdown s => Some s | _ => None end) t.

(** The views a trace builds, in order. *)
Definition created_views (t : list Event) : list StoragePtr :=
  omap (λ e, match e with call_StorageDictionary_create s => Some s | _ => None end) t.

(** ** What a snapshot is expected to hold *)

(** Whether a name passes the filter: an empty function object lets every
    name pass. *)
Definition passes (filter_by_name : FilterByNameFunction) (n : string) : bool :=
  match filter_by_name with
  | None => true
  | Some f => f n
  end.

(** The entries of a table map whose names pass the filter; all of them
    when there is no filter. *)
Definition select_tables (filter_by_table_name : FilterByNameFunction) (tables_ : Tables)
  : Tables :=
  match filter_by_table_name with
  | None => tables_
  | Some f => filter (λ kv, f kv.1 = true) tables_
  end.

(** The dictionary names that pass the filter. *)
Definition select_dictionaries (filter_by_dictionary_name : FilterByNameFunction)
    (dictionaries_ : Dictionaries) : Dictionaries :=
  match filter_by_dictionary_name with
  | None => dictionaries_
  | Some f => filter (λ n, f n = true) dictionaries_
  end.

(** A computation only ever adds objects to the heap. *)
Definition keeps_heap {A} (c : M A) : Prop :=
  ∀ m, heap m `prefix_of` heap (after c m).

(** ** A concrete server for the examples *)

Module Example.
(** A loader that knows one dictionary, [db.d], with one column. *)
Definition loader : ExternalDictionariesLoader NamesAndTypesList := {|
  tryGetDictionary := λ dict_name,
    if decide (dict_name = "db.d") then Some [("id", "UInt64")] else None;
  reload := λ _ _, None
|}.

(** A loader whose [reload] throws. *)
Definition reload_failure : Exception :=
  mkException "Failed to load dictionary" LOGICAL_ERROR.

Definition failing_loader : ExternalDictionariesLoader NamesAndTypesList := {|
  tryGetDictionary := λ _, None;
  reload := λ _ _, Some reload_failure
|}.

Definition context : Context NamesAndTypesList :=
  {| getExternalDictionariesLoader := loader; getConfigRef := ∅ |}.

Definition failing_context : Context NamesAndTypesList :=
  {| getExternalDictionariesLoader := failing_loader; getConfigRef := ∅ |}.

Definition getStructure (dict : NamesAndTypesList) : NamesAndTypesList := dict.
Definition getNamesAndTypes (structure : NamesAndTypesList) : NamesAndTypesList := structure.

(** Every storage shuts down without an exception. *)
Definition IStorage_shutdown (s : StoragePtr) : option Exception := None.

(** Database [db] with table [t] and dictionary [d]. *)
Definition db : DatabaseWithOwnTablesBase :=
  {| name := "db"; tables := {[ "t" := Storage 1 ]}; dictionaries := {[ "d" ]} |}.

Definition machine : Machine := {| this := db; heap := [] |}.

(** The same database after [d] has been attached as a table as well. *)
Definition shadowing_db : DatabaseWithOwnTablesBase :=
  {| name := "db"; tables := {[ "t" := Storage 1; "d" := Storage 2 ]};
     dictionaries := {[ "d" ]} |}.

Definition shadowing_machine : Machine := {| this := shadowing_db; heap := [] |}.

(** The view of [db.d]. *)
Definition view_d : StoragePtr :=
  StorageDictionary "db" "d" (mkColumnsDescription [("id", "UInt64")]) true "db.d".
End Example.

(** ** The destructor *)

(** [try { body } catch (...) { handler }]. *)
Definition try_catch {A} (body : M A) (handler : Exception → M A) : M A := λ m,
  match body m with
  | (Returned a, m', t) => (Returned a, m', t)
  | (Thrown e, m', t) => let '(r, m'', t') := handler e m' in (r, m'', t ++ t')
  end.

(** [~DatabaseWithOwnTablesBase]: [shutdown] inside a [try] whose handler
    passes the exception to [tryLogCurrentException].  The result is the
    exception that was logged, if any. *)
Definition DatabaseWithOwnTablesBase_destructor
    (IStorage_shutdown : StoragePtr → option Exception) : M (option Exception) :=
  try_catch (_ ← shutdown IStorage_shutdown; mret None) (λ e, mret (Some e)).

(** ** More ways to read a trace *)

(** The qualified names a trace looks up in the loader, in order. *)
Definition loader_lookups (t : list Event) : list string :=
  omap (λ e, match e with call_tryGetDictionary dict_name => Some dict_name | _ => None end) t.

(** The events that reach the dictionaries code. *)
Definition touches_dictionaries_code (e : Event) : bool :=
  match e with
  | call_tryGetDictionary _ | call_StorageDictionary_create _ | call_reload _ _ => true
  | _ => false
  end.

(** The member functions that take a [Context] to reach the loader with. *)
Definition reaches_loader {IDictionaryBase : Type} (c : Call IDictionaryBase) : bool :=
  match c with
  | invoke_tryGetTable _ _ | invoke_getTablesWithDictionaryTablesIterator _ _
  | invoke_attachDictionary _ _ _ | invoke_detachDictionary _ _ => true
  | _ => false
  end.

(** The member functions that look things up or enumerate them. *)
Definition is_query {IDictionaryBase : Type} (c : Call IDictionaryBase) : bool :=
  match c with
  | invoke_isTableExist _ _ | invoke_isDictionaryExist _ _ | invoke_tryGetTable _ _
  | invoke_getTablesWithDictionaryTablesIterator _ _ | invoke_getTablesIterator _ _
  | invoke_getDictionariesIterator _ _ | invoke_empty _ => true
  | _ => false
  end.


(** ** What the two loops that call out do, as functions *)

(** The storages that the loop of [shutdown] reaches, in order, and the
    exception that ends it, if any: the loop stops at the first storage
    whose [shutdown] throws. *)
Fixpoint shut_down_until_throw (IStorage_shutdown : StoragePtr → option Exception)
    (range : list (string * StoragePtr)) : list StoragePtr * option Exception :=
  match range with
  | [] => ([], None)
  | kv :: range' =>
      match IStorage_shutdown kv.2 with
      | Some e => ([kv.2], Some e)
      | None =>
          let '(reached, thrown) := shut_down_until_throw IStorage_shutdown range' in
          (kv.2 :: reached, thrown)
      end
  end.

(** The events of one round of the loop over the dictionary names in
    [getTablesWithDictionaryTablesIterator]: nothing for a name that does
    not pass, the lookup for one that does, and the creation of the view
    when the loader has the dictionary. *)
Definition dictionary_round_events {IDictionaryBase DictionaryStructure : Type}
    (getStructure : IDictionaryBase → DictionaryStructure)
    (getNamesAndTypes : DictionaryStructure → NamesAndTypesList)
    (context : Context IDictionaryBase) (db : DatabaseWithOwnTablesBase)
    (pass : string → bool) (n : string) : list Event :=
  if pass n
  then
    let dict_name := name db +:+ "." +:+ n in
    call_tryGetDictionary dict_name
    :: match tryGetDictionary (getExternalDictionariesLoader context) dict_name with
       | Some dict =>
           [call_StorageDictionary_create (view_of getStructure getNamesAndTypes (name db) n dict)]
       | None => []
       end
  else [].

(** ** A server with a storage that fails to shut down *)

Module Faulty.
Definition failure : Exception := mkException "Cannot shut down" LOGICAL_ERROR.

(** The storage [Storage 2] throws from its [shutdown]. *)
Definition IStorage_shutdown (s : StoragePtr) : option Exception :=
  if decide (s = Storage 2) then Some failure else None.

(** Tables [a], [b] and [c], the second one over the failing storage, and
    dictionary [d]. *)
Definition db : DatabaseWithOwnTablesBase :=
  {| name := "db";
     tables := {[ "a" := Storage 1; "b" := Storage 2; "c" := Storage 3 ]};
     dictionaries := {[ "d" ]} |}.

Definition machine : Machine := {| this := db; heap := [] |}.
End Faulty.


(** ** A server with one storage under two names *)

Module Aliased.
(** Tables [a] and [b] share the storage [Storage 1]; table [c] has its
    own. *)
Definition db : DatabaseWithOwnTablesBase :=
  {| name := "db";
     tables := {[ "a" := Storage 1; "b" := Storage 1; "c" := Storage 2 ]};
     dictionaries := {[ "d" ]} |}.

Definition machine : Machine := {| this := db; heap := [] |}.
End Aliased.


(** * Properties *)

(** ** The loops over the containers *)

Lemma entries_Permutation {V} (m : gmap string V) : entries m ≡ₚ map_to_list m.
Proof. apply merge_sort_Permutation. Qed.

Lemma members_Permutation (s : Dictionaries) : members s ≡ₚ elements s.
Proof. apply merge_sort_Permutation. Qed.

(** Both loops run in increasing key order. *)
Lemma entries_Sorted {V} (tables_ : gmap string V) : Sorted key_le (entries tables_).
Proof. apply Sorted_merge_sort, _. Qed.

Lemma members_Sorted (dictionaries_ : Dictionaries) : Sorted String_le (members dictionaries_).
Proof. apply Sorted_merge_sort, _. Qed.

Lemma elem_of_members (s : Dictionaries) n : n ∈ members s ↔ n ∈ s.
Proof. by rewrite members_Permutation, elem_of_elements. Qed.

Lemma list_to_map_entries {V} (m : gmap string V) : list_to_map (entries m) = m.
Proof.
  rewrite <-(list_to_map_to_list m) at 2.
  apply list_to_map_proper; [|apply entries_Permutation].
  rewrite entries_Permutation. apply NoDup_fst_map_to_list.
Qed.

Lemma map_emplace_lookup {V} k (v : V) (m : gmap string V) k' :
  (map_emplace k v m).1 !! k'
  = match m !! k' with
    | Some v' => Some v'
    | None => if decide (k = k') then Some v else None
    end.
Proof.
  unfold map_emplace. destruct (m !! k) as [v0|] eqn:Hk; cbn.
  - destruct (m !! k') eqn:Hk'; [done|]. case_decide; [congruence|done].
  - rewrite lookup_insert. case_decide as Heq.
    + subst. by rewrite Hk.
    + by destruct (m !! k').
Qed.

Lemma filter_tables_loop_lookup (f : string → bool) (range : list (string * StoragePtr))
    (filtered_tables : Tables) k :
  foldl (λ filtered_tables kv,
           if f kv.1 then (map_emplace kv.1 kv.2 filtered_tables).1 else filtered_tables)
        filtered_tables range !! k
  = match filtered_tables !! k with
    | Some s => Some s
    | None => if f k then (list_to_map range : Tables) !! k else None
    end.
Proof.
  revert filtered_tables.
  induction range as [|[k' s'] range IH]; intros filtered_tables; cbn [foldl].
  - rewrite list_to_map_nil, lookup_empty.
    destruct (filtered_tables !! k); [done|by destruct (f k)].
  - rewrite IH, list_to_map_cons. cbn [fst snd]. rewrite (lookup_insert _ k' k).
    destruct (f k') eqn:Hfk'.
    + rewrite map_emplace_lookup.
      destruct (filtered_tables !! k); [done|].
      case_decide; [subst; by rewrite Hfk'|done].
    + destruct (filtered_tables !! k); [done|].
      case_decide; [subst; by rewrite Hfk'|done].
Qed.

(** The filtering loop over the table map keeps exactly the entries whose
    names pass the filter. *)
Lemma filter_tables_filter (f : string → bool) (tables_ : Tables) :
  filter_tables f tables_ = filter (λ kv, f kv.1 = true) tables_.
Proof.
  apply map_eq. intros k. unfold filter_tables.
  rewrite filter_tables_loop_lookup, lookup_empty, list_to_map_entries.
  rewrite map_lookup_filter. destruct (tables_ !! k) as [s|] eqn:Hk; cbn.
  - destruct (f k) eqn:Hfk.
    + by rewrite option_guard_True.
    + by rewrite option_guard_False.
  - by destruct (f k).
Qed.

Lemma set_emplace_union k (s : Dictionaries) : (set_emplace k s).1 = {[k]} ∪ s.
Proof.
  unfold set_emplace. case_decide; cbn; [|done].
  symmetry. by apply subseteq_union_1_L, singleton_subseteq_l.
Qed.

Lemma filter_dictionaries_loop_elem_of (f : string → bool) (range : list string)
    (filtered_dictionaries : Dictionaries) n :
  n ∈ foldl (λ filtered_dictionaries dictionary_name,
               if f dictionary_name
               then (set_emplace dictionary_name filtered_dictionaries).1
               else filtered_dictionaries)
            filtered_dictionaries range
  ↔ n ∈ filtered_dictionaries ∨ (f n = true ∧ n ∈ range).
Proof.
  revert filtered_dictionaries.
  induction range as [|n' range IH]; intros filtered_dictionaries; cbn [foldl].
  - rewrite elem_of_nil. tauto.
  - rewrite IH, elem_of_cons. destruct (f n') eqn:Hfn'.
    + rewrite set_emplace_union, elem_of_union, elem_of_singleton.
      split; [intros [[->|?]|[? ?]]|intros [?|[? [->|?]]]]; auto.
    + split; [intros [?|[? ?]]|intros [?|[? [->|?]]]]; auto. congruence.
Qed.

(** The filtering loop over the dictionary names keeps exactly the names
    that pass the filter. *)
Lemma filter_dictionaries_filter (f : string → bool) (dictionaries_ : Dictionaries) :
  filter_dictionaries f dictionaries_ = filter (λ n, f n = true) dictionaries_.
Proof.
  apply set_eq. intros n. unfold filter_dictionaries.
  rewrite filter_dictionaries_loop_elem_of, elem_of_members, elem_of_filter.
  rewrite elem_of_empty. tauto.
Qed.

(** ** The monad *)

(** Unfold the monad down to the machine. *)
Ltac run :=
  cbv [outcome after events discard lock_guard mbind mret M_bind M_ret bind ret throw emit
       get_this set_tables set_dictionaries make_unique external_call getDatabaseName];
  cbn [fst snd this heap name tables dictionaries negb app].

Lemma bind_returned {A B} (c : M A) (k : A → M B) m a m' t :
  c m = (Returned a, m', t) →
  (c ≫= k) m = (let '(r, m'', t') := k a m' in (r, m'', t ++ t')).
Proof. intros Hc. unfold mbind, M_bind, bind. by rewrite Hc. Qed.

Lemma bind_thrown {A B} (c : M A) (k : A → M B) m e m' t :
  c m = (Thrown e, m', t) →
  (c ≫= k) m = (Thrown e, m', t).
Proof. intros Hc. unfold mbind, M_bind, bind. by rewrite Hc. Qed.

Section Properties.

Context {IDictionaryBase DictionaryStructure : Type}.
Variable getStructure : IDictionaryBase → DictionaryStructure.
Variable getNamesAndTypes : DictionaryStructure → NamesAndTypesList.
Variable IStorage_shutdown : StoragePtr → option Exception.

Implicit Types (m : Machine) (context : Context IDictionaryBase)
  (n table_name dictionary_name : string) (s table : StoragePtr).

(** ** Existence and lookup *)

(** C8: [isTableExist n] returns [true] exactly when [n] is a key of the
    table map or a member of the dictionary name set, and it leaves the
    registry as it was; in particular it returns [true] for an attached
    dictionary that has no table entry. *)
Theorem isTableExist_iff context n m :
  ∃ b : bool,
    outcome (isTableExist context n) m = Returned b
    ∧ after (isTableExist context n) m = m
    ∧ (b = true ↔ is_Some (tables (this m) !! n) ∨ n ∈ dictionaries (this m))
    ∧ (tables (this m) !! n = None → n ∈ dictionaries (this m) → b = true).
Proof.
  exists (bool_decide (n ∈ dom (tables (this m))) || bool_decide (n ∈ dictionaries (this m))).
  unfold isTableExist. run.
  split; [reflexivity|]. split; [reflexivity|].
  rewrite orb_true_iff, !bool_decide_eq_true, elem_of_dom.
  split; [reflexivity|]. intros _ Hd. by right.
Qed.

(** C5: [tryGetTable n] returns the stored handle when [n] is a table key,
    whether or not [n] is also a dictionary name, without calling the
    loader; otherwise, when [n] is a dictionary name, it asks the loader
    for [db.n] and returns a view created in this very call, or nothing
    when the loader has no such dictionary; otherwise it returns nothing.
    In every case the table map and the dictionary set are left as they
    were, so no view is ever stored. *)
Theorem tryGetTable_cases context n m :
  let db := this m in
  let loader := getExternalDictionariesLoader context in
  let dict_name := name db +:+ "." +:+ n in
  let call := tryGetTable getStructure getNamesAndTypes context n in
  after call m = m
  ∧ (∀ s, tables db !! n = Some s →
       outcome call m = Returned (Some s)
       ∧ events call m = [mutex_lock; mutex_unlock])
  ∧ (∀ dict, tables db !! n = None → n ∈ dictionaries db →
       tryGetDictionary loader dict_name = Some dict →
       outcome call m = Returned (Some (view_of getStructure getNamesAndTypes (name db) n dict))
       ∧ events call m =
           [mutex_lock; call_tryGetDictionary dict_name;
            call_StorageDictionary_create (view_of getStructure getNamesAndTypes (name db) n dict); mutex_unlock])
  ∧ (tables db !! n = None → n ∈ dictionaries db →
       tryGetDictionary loader dict_name = None →
       outcome call m = Returned None
       ∧ events call m = [mutex_lock; call_tryGetDictionary dict_name; mutex_unlock])
  ∧ (tables db !! n = None → n ∉ dictionaries db →
       outcome call m = Returned None
       ∧ events call m = [mutex_lock; mutex_unlock]).
Proof.
  intros db loader dict_name call. subst db loader dict_name call.
  unfold tryGetTable, getDictionaryStorage, StorageDictionary_create, view_of. run.
  destruct (tables (this m) !! n) as [s|] eqn:Hlookup.
  - run. split; [done|]. split; [by intros ? [= <-]|]. by repeat split.
  - case_bool_decide as Hdict.
    + destruct (tryGetDictionary _ _) as [dict|] eqn:Hloader; run.
      * split; [done|]. split; [done|]. split; [by intros ? _ _ [= <-]|].
        split; [done|]. by intros _ ?.
      * split; [done|]. split; [done|]. split; [done|]. split; [done|]. by intros _ ?.
    + run. split; [done|]. split; [done|]. split; [by intros ? _ ?|].
      split; [by intros _ ?|]. done.
Qed.

(** ** Attaching and detaching *)

Lemma attachTable_present n table s m :
  tables (this m) !! n = Some s →
  outcome (attachTable n table) m = Thrown (table_already_exists (this m) n)
  ∧ after (attachTable n table) m = m.
Proof.
  intros Hlookup. unfold attachTable, map_emplace. run. rewrite Hlookup. run.
  by destruct m as [[]].
Qed.

Lemma attachTable_absent n table m :
  tables (this m) !! n = None →
  outcome (attachTable n table) m = Returned ()
  ∧ this (after (attachTable n table) m)
    = {| name := name (this m); tables := <[n := table]> (tables (this m));
         dictionaries := dictionaries (this m) |}
  ∧ heap (after (attachTable n table) m) = heap m.
Proof.
  intros Hlookup. unfold attachTable, map_emplace. run. rewrite Hlookup. by run.
Qed.

Lemma attachDictionary_present n context load m :
  n ∈ dictionaries (this m) →
  outcome (attachDictionary n context load) m = Thrown (dictionary_already_exists (this m) n)
  ∧ after (attachDictionary n context load) m = m
  ∧ events (attachDictionary n context load) m = [mutex_lock; mutex_unlock].
Proof.
  intros Hin. unfold attachDictionary, set_emplace. run.
  rewrite decide_True by done. run. by destruct m as [[]].
Qed.

Lemma attachDictionary_absent n context load m :
  n ∉ dictionaries (this m) →
  let dict_name := name (this m) +:+ "." +:+ n in
  let wait := negb (getBool (getConfigRef context) "dictionaries_lazy_load" true) in
  this (after (attachDictionary n context load) m)
    = {| name := name (this m); tables := tables (this m);
         dictionaries := {[n]} ∪ dictionaries (this m) |}
  ∧ heap (after (attachDictionary n context load) m) = heap m
  ∧ outcome (attachDictionary n context load) m
    = (if load
       then match reload (getExternalDictionariesLoader context) dict_name wait with
            | Some e => Thrown e
            | None => Returned ()
            end
       else Returned ())
  ∧ events (attachDictionary n context load) m
    = mutex_lock :: mutex_unlock :: (if load then [call_reload dict_name wait] else []).
Proof.
  intros Hin. unfold attachDictionary, set_emplace. run.
  rewrite decide_False by done. run.
  destruct load; run; [|done].
  by destruct (reload _ _ _).
Qed.

(** C7: when [n] is not a key of the table map, [attachTable n table]
    returns and maps [n] to [table], leaving the dictionary name set alone
    and never consulting it: this holds whether or not [n] is a dictionary
    name.  The call throws only when [n] is a table key already, and then
    with [TABLE_ALREADY_EXISTS]. *)
Theorem attachTable_ignores_dictionaries n table m :
  (tables (this m) !! n = None →
     outcome (attachTable n table) m = Returned ()
     ∧ tables (this (after (attachTable n table) m)) = <[n := table]> (tables (this m))
     ∧ dictionaries (this (after (attachTable n table) m)) = dictionaries (this m))
  ∧ (∀ e, outcome (attachTable n table) m = Thrown e →
       is_Some (tables (this m) !! n) ∧ code e = TABLE_ALREADY_EXISTS).
Proof.
  split.
  - intros Hlookup. destruct (attachTable_absent n table m Hlookup) as (-> & -> & _). done.
  - intros e. destruct (tables (this m) !! n) as [s|] eqn:Hlookup.
    + destruct (attachTable_present n table s m Hlookup) as [-> _].
      intros [= <-]. eauto.
    + destruct (attachTable_absent n table m Hlookup) as [-> _]. done.
Qed.

(** C4: whatever the registry was, once [attachTable n] has been called a
    second [attachTable n] throws [TABLE_ALREADY_EXISTS] and leaves the
    machine exactly as the first call left it; once [attachDictionary n]
    has been called, a second [attachDictionary n] throws
    [DICTIONARY_ALREADY_EXISTS], calls no loader, and leaves the machine
    exactly as the first call left it. *)
Theorem attach_twice_fails n m :
  (∀ table table',
     let m1 := after (attachTable n table) m in
     outcome (attachTable n table') m1 = Thrown (table_already_exists (this m) n)
     ∧ after (attachTable n table') m1 = m1)
  ∧ (∀ context load context' load',
       let m1 := after (attachDictionary n context load) m in
       outcome (attachDictionary n context' load') m1
         = Thrown (dictionary_already_exists (this m) n)
       ∧ after (attachDictionary n context' load') m1 = m1
       ∧ events (attachDictionary n context' load') m1 = [mutex_lock; mutex_unlock]).
Proof.
  split.
  - intros table table' m1.
    assert (∃ s, tables (this m1) !! n = Some s ∧ name (this m1) = name (this m))
      as (s & Hs & Hname).
    { subst m1. destruct (tables (this m) !! n) as [s|] eqn:Hlookup.
      - destruct (attachTable_present n table s m Hlookup) as [_ ->]. eauto.
      - destruct (attachTable_absent n table m Hlookup) as (_ & -> & _).
        exists table. cbn. by rewrite lookup_insert_eq. }
    destruct (attachTable_present n table' s m1 Hs) as [-> ->].
    unfold table_already_exists. by rewrite Hname.
  - intros context load context' load' m1.
    assert (n ∈ dictionaries (this m1) ∧ name (this m1) = name (this m)) as [Hin Hname].
    { subst m1. destruct (decide (n ∈ dictionaries (this m))) as [Hin|Hin].
      - destruct (attachDictionary_present n context load m Hin) as (_ & -> & _). done.
      - destruct (attachDictionary_absent n context load m Hin) as (-> & _).
        cbn. split; [set_solver|done]. }
    destruct (attachDictionary_present n context' load' m1 Hin) as (-> & -> & ->).
    unfold dictionary_already_exists. by rewrite Hname.
Qed.

(** C3: [detachTable n] throws the ["Cannot detach dictionary"] exception
    when [n] is a dictionary name, and the registry, [n] included, stays
    as it was; it throws the ["doesn't exist"] exception when [n] is
    neither a dictionary name nor a table key, again changing nothing;
    otherwise it removes [n] from the table map and returns the handle
    that was stored under [n].  Both exceptions carry [UNKNOWN_TABLE]. *)
Theorem detachTable_cases n m :
  let db := this m in
  (n ∈ dictionaries db →
     outcome (detachTable n) m = Thrown (cannot_detach_dictionary db n)
     ∧ after (detachTable n) m = m)
  ∧ (n ∉ dictionaries db → tables db !! n = None →
       outcome (detachTable n) m = Thrown (table_does_not_exist db n)
       ∧ after (detachTable n) m = m)
  ∧ (∀ s, n ∉ dictionaries db → tables db !! n = Some s →
       outcome (detachTable n) m = Returned s
       ∧ tables (this (after (detachTable n) m)) = delete n (tables db)
       ∧ dictionaries (this (after (detachTable n) m)) = dictionaries db).
Proof.
  intros db. subst db. unfold detachTable. run.
  case_bool_decide as Hdict; run.
  - split; [done|]. split; [by intros ?|by intros ? ?].
  - destruct (tables (this m) !! n) as [s|] eqn:Hlookup; run.
    + split; [done|]. split; [by intros _ ?|]. by intros ? _ [= <-].
    + split; [done|]. split; [done|]. by intros ? _ ?.
Qed.

(** C10: [attachDictionary] and [detachDictionary] change the dictionary
    name set and release the mutex before they call the loader's [reload].
    So when [reload] throws, the exception reaches the caller and the
    change stays: after [attachDictionary n] with [load] set the name [n]
    is attached, after [detachDictionary n] it is detached. *)
Theorem reload_failure_keeps_mutation n context m e :
  let db := this m in
  let loader := getExternalDictionariesLoader context in
  let dict_name := name db +:+ "." +:+ n in
  let wait := negb (getBool (getConfigRef context) "dictionaries_lazy_load" true) in
  (n ∉ dictionaries db → reload loader dict_name wait = Some e →
     outcome (attachDictionary n context true) m = Thrown e
     ∧ dictionaries (this (after (attachDictionary n context true) m)) = {[n]} ∪ dictionaries db
     ∧ n ∈ dictionaries (this (after (attachDictionary n context true) m))
     ∧ events (attachDictionary n context true) m
       = [mutex_lock; mutex_unlock; call_reload dict_name wait])
  ∧ (n ∈ dictionaries db → reload loader dict_name true = Some e →
       outcome (detachDictionary n context) m = Thrown e
       ∧ dictionaries (this (after (detachDictionary n context) m)) = (dictionaries db ∖ {[n]})
       ∧ (n ∉ dictionaries (this (after (detachDictionary n context) m)))
       ∧ events (detachDictionary n context) m
         = [mutex_lock; mutex_unlock; call_reload dict_name true]).
Proof.
  intros db loader dict_name wait. subst db loader dict_name wait. split.
  - intros Hin Hreload.
    destruct (attachDictionary_absent n context true m Hin) as (Hthis & _ & -> & ->).
    rewrite Hthis, Hreload. cbn. split_and!; [done|done|set_solver|done].
  - intros Hin Hreload. unfold detachDictionary. run.
    rewrite bool_decide_eq_true_2 by done. run. rewrite Hreload. run.
    split_and!; [done|done| |done].
    intros [_ Hn]%elem_of_difference. by apply Hn, elem_of_singleton.
Qed.

(** ** Shutdown *)

Lemma empty_outcome context m :
  outcome (empty context) m
  = Returned (bool_decide (tables (this m) = ∅) && bool_decide (dictionaries (this m) = ∅)).
Proof. unfold empty. by run. Qed.

Lemma shutdown_calls_app t1 t2 :
  shutdown_calls (t1 ++ t2) = shutdown_calls t1 ++ shutdown_calls t2.
Proof. unfold shutdown_calls. apply omap_app. Qed.

(** The loop over the snapshot stops at the first storage that throws. *)
Lemma shutdown_loop_throws (range : list (string * StoragePtr)) m :
  Exists (λ kv, is_Some (IStorage_shutdown kv.2)) range →
  ∃ e t,
    for_each range (λ kv _, external_call (call_shutdown kv.2) (IStorage_shutdown kv.2)) () m
    = (Thrown e, m, t).
Proof.
  induction range as [|kv range IH]; intros Hthrows; [by apply Exists_nil in Hthrows|].
  cbn [for_each]. destruct (IStorage_shutdown kv.2) as [e|] eqn:Hkv.
  - exists e. eexists. eapply bind_thrown. by run.
  - apply Exists_cons in Hthrows as [[e He]|Hthrows]; [by rewrite Hkv in He|].
    destruct (IH Hthrows) as (e & t & Hloop).
    erewrite bind_returned by (by run).
    rewrite Hloop. by eexists _, _.
Qed.

(** When a storage of the table map throws from its [shutdown], the
    exception leaves the database's [shutdown] and the registry is not
    cleared. *)
Lemma shutdown_throws n s m :
  tables (this m) !! n = Some s → is_Some (IStorage_shutdown s) →
  ∃ e, outcome (shutdown IStorage_shutdown) m = Thrown e
       ∧ after (shutdown IStorage_shutdown) m = m.
Proof.
  intros Hlookup Hthrows.
  destruct (shutdown_loop_throws (entries (tables (this m))) m) as (e & t & Hloop).
  { apply Exists_exists. exists (n, s). split; [|done].
    unfold entries. rewrite merge_sort_Permutation. by apply elem_of_map_to_list. }
  assert (shutdown IStorage_shutdown m = (Thrown e, m, [mutex_lock; mutex_unlock] ++ t))
    as Hshutdown.
  { unfold shutdown. erewrite bind_returned by (by run). cbv beta.
    by erewrite bind_thrown by exact Hloop. }
  exists e. unfold outcome, after. by rewrite Hshutdown.
Qed.

(** How often a storage held under exactly one name occurs among the
    values of the map. *)
Lemma count_occ_unique_value (tables_ : Tables) n s :
  tables_ !! n = Some s →
  (∀ n', tables_ !! n' = Some s → n' = n) →
  count_occ IStorage_eq_dec (entries tables_).*2 s = 1.
Proof.
  intros Hlookup Hunique.
  assert ((entries tables_).*2 ≡ₚ s :: (map_to_list (delete n tables_)).*2) as Hperm.
  { unfold entries. rewrite merge_sort_Permutation.
    rewrite <-(insert_delete_id tables_ n s) at 1 by done.
    rewrite map_to_list_insert by apply lookup_delete_eq. done. }
  apply (Permutation_count_occ IStorage_eq_dec) with (x := s) in Hperm.
  rewrite Hperm, count_occ_cons_eq by done. f_equal.
  apply count_occ_not_In. rewrite <-list_elem_of_In.
  intros ([n' s'] & -> & Hin)%list_elem_of_fmap. cbn in Hin.
  apply elem_of_map_to_list in Hin.
  destruct (decide (n' = n)) as [->|Hne].
  - by rewrite lookup_delete_eq in Hin.
  - rewrite lookup_delete_ne in Hin by done. by apply Hne, Hunique.
Qed.

(** ** Lock discipline *)

Section Discipline.

Variable allowed : bool → Event → bool.

Lemma held_after_app held t1 t2 :
  held_after held (t1 ++ t2) = held_after (held_after held t1) t2.
Proof. revert held. induction t1 as [|[] t1 IH]; intros held; cbn; auto. Qed.

Lemma lock_discipline_app held t1 t2 :
  lock_discipline allowed held (t1 ++ t2)
  = lock_discipline allowed held t1 && lock_discipline allowed (held_after held t1) t2.
Proof.
  revert held. induction t1 as [|[] t1 IH]; intros held; cbn; auto;
    by rewrite IH, andb_assoc.
Qed.

Lemma respects_silent {A} held (c : M A) :
  (∀ m, events c m = []) → respects allowed held c.
Proof. intros Hsilent m. by rewrite Hsilent. Qed.

Lemma respects_ret {A} held (a : A) : respects allowed held (mret a).
Proof. by apply respects_silent. Qed.

Lemma respects_throw {A} held e : respects allowed held (@throw A e).
Proof. by apply respects_silent. Qed.

Lemma respects_get_this held : respects allowed held get_this.
Proof. by apply respects_silent. Qed.

Lemma respects_set_tables held new_tables : respects allowed held (set_tables new_tables).
Proof. by apply respects_silent. Qed.

Lemma respects_set_dictionaries held new_dictionaries :
  respects allowed held (set_dictionaries new_dictionaries).
Proof. by apply respects_silent. Qed.

Lemma respects_make_unique held obj : respects allowed held (make_unique obj).
Proof. by apply respects_silent. Qed.

Lemma respects_bind {A B} held (c : M A) (k : A → M B) :
  respects allowed held c → (∀ a, respects allowed held (k a)) → respects allowed held (c ≫= k).
Proof.
  intros Hc Hk m. specialize (Hc m). unfold events in *.
  destruct (c m) as [[[a|e] m'] t] eqn:Hcm; cbn in Hc.
  - erewrite bind_returned by done. specialize (Hk a m'). unfold events in Hk.
    destruct (k a m') as [[r m''] t']. cbn in *.
    rewrite lock_discipline_app, held_after_app.
    destruct Hc as [-> ->]. exact Hk.
  - erewrite bind_thrown by done. exact Hc.
Qed.

Lemma respects_emit held ev :
  ev ≠ mutex_lock → ev ≠ mutex_unlock → allowed held ev = true →
  respects allowed held (emit ev).
Proof.
  intros Hlock Hunlock Hallowed m. unfold emit, events. cbn.
  destruct ev; try done; cbn; by rewrite Hallowed.
Qed.

Lemma respects_external_call held ev result :
  ev ≠ mutex_lock → ev ≠ mutex_unlock → allowed held ev = true →
  respects allowed held (external_call ev result).
Proof.
  intros. unfold external_call. apply respects_bind; [by apply respects_emit|].
  intros _. destruct result; [apply respects_throw|apply respects_ret].
Qed.

Lemma respects_lock_guard {A} (block : M A) :
  respects allowed true block → respects allowed false (lock_guard block).
Proof.
  intros Hblock m. specialize (Hblock m). unfold lock_guard, events in *.
  destruct (block m) as [[r m'] t]. cbn in *.
  rewrite lock_discipline_app, held_after_app.
  destruct Hblock as [-> ->]. done.
Qed.

Lemma respects_for_each {A S} held (range : list A) (body : A → S → M S) local :
  (∀ x local, respects allowed held (body x local)) →
  respects allowed held (for_each range body local).
Proof.
  intros Hbody. revert local.
  induction range as [|x range IH]; intros local; cbn [for_each].
  - apply respects_ret.
  - by apply respects_bind.
Qed.

Lemma respects_getDictionaryStorage held context n db_name :
  (∀ dict_name, allowed held (call_tryGetDictionary dict_name) = true) →
  (∀ view, allowed held (call_StorageDictionary_create view) = true) →
  respects allowed held (getDictionaryStorage getStructure getNamesAndTypes context n db_name).
Proof.
  intros Hlookup Hcreate. unfold getDictionaryStorage, StorageDictionary_create.
  apply respects_bind; [by apply respects_emit|]. intros _.
  destruct (tryGetDictionary _ _); [|apply respects_ret].
  apply respects_bind; [|intros; apply respects_ret].
  apply respects_bind; [by apply respects_emit|]. intros; apply respects_ret.
Qed.

End Discipline.

(** One step of a proof that a member function respects a discipline. *)
Ltac respects_step :=
  lazymatch goal with
  | |- respects _ _ (lock_guard _) => apply respects_lock_guard
  | |- respects _ _ (for_each _ _ _) => apply respects_for_each; intros ? ?
  | |- respects _ _ (getDictionaryStorage _ _ _ _ _) =>
      apply respects_getDictionaryStorage; intros; reflexivity
  | |- respects _ _ (external_call _ _) =>
      apply respects_external_call; [discriminate|discriminate|reflexivity]
  | |- respects _ _ (_ ≫= _) => apply respects_bind; [|intros ?]
  | |- respects _ _ (mret _) => apply respects_ret
  | |- respects _ _ (throw _) => apply respects_throw
  | |- respects _ _ get_this => apply respects_get_this
  | |- respects _ _ (set_tables _) => apply respects_set_tables
  | |- respects _ _ (set_dictionaries _) => apply respects_set_dictionaries
  | |- respects _ _ (make_unique _) => apply respects_make_unique
  | |- respects _ _ (match ?x with _ => _ end) => destruct x
  end.

Lemma perform_respects_outside (c : Call IDictionaryBase) m :
  lock_discipline reload_and_shutdown_outside false
    (perform getStructure getNamesAndTypes IStorage_shutdown c m).2 = true.
Proof.
  destruct c; cbn [perform discard snd];
    match goal with |- context [events ?call m] =>
      enough (respects reload_and_shutdown_outside false call) as Hcall
        by apply Hcall
    end.
  all: unfold isTableExist, isDictionaryExist, tryGetTable,
    getTablesWithDictionaryTablesIterator, emplace_dictionary_storage, getTablesIterator,
    getDictionariesIterator, empty, detachTable, detachDictionary, attachTable,
    attachDictionary, shutdown.
  all: repeat respects_step.
Qed.

Lemma perform_respects_inside (c : Call IDictionaryBase) m :
  lock_discipline tryGetDictionary_inside false
    (perform getStructure getNamesAndTypes IStorage_shutdown c m).2 = true.
Proof.
  destruct c; cbn [perform discard snd];
    match goal with |- context [events ?call m] =>
      enough (respects tryGetDictionary_inside false call) as Hcall
        by apply Hcall
    end.
  all: unfold isTableExist, isDictionaryExist, tryGetTable,
    getTablesWithDictionaryTablesIterator, emplace_dictionary_storage, getTablesIterator,
    getDictionariesIterator, empty, detachTable, detachDictionary, attachTable,
    attachDictionary, shutdown.
  all: repeat respects_step.
Qed.

(** ** Snapshots *)

Lemma keeps_heap_same {A} (c : M A) :
  (∀ m, heap (after c m) = heap m) → keeps_heap c.
Proof. intros Hsame m. by rewrite Hsame. Qed.

Lemma keeps_heap_ret {A} (a : A) : keeps_heap (mret a).
Proof. by apply keeps_heap_same. Qed.

Lemma keeps_heap_throw {A} e : keeps_heap (@throw A e).
Proof. by apply keeps_heap_same. Qed.

Lemma keeps_heap_emit ev : keeps_heap (emit ev).
Proof. by apply keeps_heap_same. Qed.

Lemma keeps_heap_get_this : keeps_heap get_this.
Proof. by apply keeps_heap_same. Qed.

Lemma keeps_heap_set_tables new_tables : keeps_heap (set_tables new_tables).
Proof. by apply keeps_heap_same. Qed.

Lemma keeps_heap_set_dictionaries new_dictionaries :
  keeps_heap (set_dictionaries new_dictionaries).
Proof. by apply keeps_heap_same. Qed.

Lemma keeps_heap_make_unique obj : keeps_heap (make_unique obj).
Proof. intros m. by apply prefix_app_r. Qed.

Lemma keeps_heap_bind {A B} (c : M A) (k : A → M B) :
  keeps_heap c → (∀ a, keeps_heap (k a)) → keeps_heap (c ≫= k).
Proof.
  intros Hc Hk m. specialize (Hc m). unfold after in *.
  destruct (c m) as [[[a|e] m'] t] eqn:Hcm; cbn in Hc.
  - erewrite bind_returned by done. specialize (Hk a m'). unfold after in Hk.
    destruct (k a m') as [[r m''] t']. cbn in *. by etrans.
  - erewrite bind_thrown by done. exact Hc.
Qed.

Lemma keeps_heap_lock_guard {A} (block : M A) :
  keeps_heap block → keeps_heap (lock_guard block).
Proof.
  intros Hblock m. specialize (Hblock m). unfold lock_guard, after in *.
  by destruct (block m) as [[r m'] t].
Qed.

Lemma keeps_heap_external_call ev result : keeps_heap (external_call ev result).
Proof.
  unfold external_call. apply keeps_heap_bind; [apply keeps_heap_emit|].
  intros _. destruct result; [apply keeps_heap_throw|apply keeps_heap_ret].
Qed.

Lemma keeps_heap_for_each {A S} (range : list A) (body : A → S → M S) local :
  (∀ x local, keeps_heap (body x local)) →
  keeps_heap (for_each range body local).
Proof.
  intros Hbody. revert local.
  induction range as [|x range IH]; intros local; cbn [for_each].
  - apply keeps_heap_ret.
  - by apply keeps_heap_bind.
Qed.

Lemma keeps_heap_getDictionaryStorage context n db_name :
  keeps_heap (getDictionaryStorage getStructure getNamesAndTypes context n db_name).
Proof.
  unfold getDictionaryStorage, StorageDictionary_create.
  apply keeps_heap_bind; [apply keeps_heap_emit|]. intros _.
  destruct (tryGetDictionary _ _); [|apply keeps_heap_ret].
  apply keeps_heap_bind; [|intros; apply keeps_heap_ret].
  apply keeps_heap_bind; [apply keeps_heap_emit|]. intros; apply keeps_heap_ret.
Qed.

Ltac keeps_heap_step :=
  lazymatch goal with
  | |- keeps_heap (lock_guard _) => apply keeps_heap_lock_guard
  | |- keeps_heap (for_each _ _ _) => apply keeps_heap_for_each; intros ? ?
  | |- keeps_heap (getDictionaryStorage _ _ _ _ _) => apply keeps_heap_getDictionaryStorage
  | |- keeps_heap (external_call _ _) => apply keeps_heap_external_call
  | |- keeps_heap (_ ≫= _) => apply keeps_heap_bind; [|intros ?]
  | |- keeps_heap (mret _) => apply keeps_heap_ret
  | |- keeps_heap (throw _) => apply keeps_heap_throw
  | |- keeps_heap get_this => apply keeps_heap_get_this
  | |- keeps_heap (set_tables _) => apply keeps_heap_set_tables
  | |- keeps_heap (set_dictionaries _) => apply keeps_heap_set_dictionaries
  | |- keeps_heap (make_unique _) => apply keeps_heap_make_unique
  | |- keeps_heap (match ?x with _ => _ end) => destruct x
  end.

(** No call of the registry touches an object that is already in the
    heap. *)
Lemma perform_keeps_heap (c : Call IDictionaryBase) m :
  heap m `prefix_of` heap (perform getStructure getNamesAndTypes IStorage_shutdown c m).1.
Proof.
  destruct c; cbn [perform discard fst];
    match goal with |- context [after ?call m] =>
      enough (keeps_heap call) as Hcall by apply Hcall
    end.
  all: unfold isTableExist, isDictionaryExist, tryGetTable,
    getTablesWithDictionaryTablesIterator, emplace_dictionary_storage, getTablesIterator,
    getDictionariesIterator, empty, detachTable, detachDictionary, attachTable,
    attachDictionary, shutdown.
  all: repeat keeps_heap_step.
Qed.

Lemma perform_all_keeps_heap (calls : list (Call IDictionaryBase)) m :
  heap m `prefix_of`
    heap (perform_all getStructure getNamesAndTypes IStorage_shutdown calls m).
Proof.
  revert m. induction calls as [|c calls IH]; intros m; [done|].
  cbn [perform_all foldl]. etrans; [apply (perform_keeps_heap c)|apply IH].
Qed.

(** An object of the heap is still there, unchanged, after any calls. *)
Lemma perform_all_lookup (calls : list (Call IDictionaryBase)) m p obj :
  heap m !! p = Some obj →
  heap (perform_all getStructure getNamesAndTypes IStorage_shutdown calls m) !! p = Some obj.
Proof. intros Hp. by eapply prefix_lookup_Some, perform_all_keeps_heap. Qed.

Lemma created_views_app t1 t2 :
  created_views (t1 ++ t2) = created_views t1 ++ created_views t2.
Proof. unfold created_views. apply omap_app. Qed.

(** One round of the loop over the dictionary names in
    [getTablesWithDictionaryTablesIterator]. *)
Lemma dictionaries_loop_body context db (pass : string → bool) n tables_copy m :
  let view := dictionary_view getStructure getNamesAndTypes context db pass n in
  ∃ t,
    (if pass n
     then emplace_dictionary_storage getStructure getNamesAndTypes context db n tables_copy
     else mret tables_copy) m
    = (Returned (match view with
                 | Some storage => (map_emplace n storage tables_copy).1
                 | None => tables_copy
                 end), m, t)
    ∧ created_views t = option_list view.
Proof.
  unfold dictionary_view. destruct (pass n); [|run; by eexists].
  unfold emplace_dictionary_storage, getDictionaryStorage, StorageDictionary_create, view_of.
  run. destruct (tryGetDictionary _ _); run; by eexists.
Qed.

(** The whole loop always runs to its end and changes nothing but its
    local variable, which gains the views of the names that pass, unless
    the name is taken; these views are all it creates. *)
Lemma dictionaries_loop_returns context db (pass : string → bool) range tables_copy m :
  let view := dictionary_view getStructure getNamesAndTypes context db pass in
  ∃ tables_copy' t,
    for_each range
      (λ dictionary_name tables_copy,
         if pass dictionary_name
         then emplace_dictionary_storage getStructure getNamesAndTypes context db
                dictionary_name tables_copy
         else mret tables_copy)
      tables_copy m
    = (Returned tables_copy', m, t)
    ∧ (∀ k, tables_copy' !! k
            = match tables_copy !! k with
              | Some storage => Some storage
              | None => if decide (k ∈ range) then view k else None
              end)
    ∧ Forall (λ storage, ∃ n, n ∈ range ∧ view n = Some storage) (created_views t).
Proof.
  intros view. revert tables_copy.
  induction range as [|n range IH]; intros tables_copy.
  { cbn [for_each]. run. eexists _, _. split; [done|]. split; [|by constructor].
    intros k. destruct (tables_copy !! k); [done|]. by rewrite decide_False by apply not_elem_of_nil. }
  cbn [for_each].
  destruct (dictionaries_loop_body context db pass n tables_copy m) as (t1 & Hbody & Hviews1).
  fold view in Hbody, Hviews1.
  erewrite bind_returned by exact Hbody.
  destruct (IH (match view n with
                | Some storage => (map_emplace n storage tables_copy).1
                | None => tables_copy
                end)) as (tables_copy' & t & -> & Hlookup & Hviews).
  eexists _, _. split; [done|]. split.
  - intros k. rewrite Hlookup. clear Hlookup.
    destruct (decide (k = n)) as [->|Hne].
    + rewrite (decide_True (P := n ∈ n :: range)) by apply list_elem_of_here.
      destruct (view n) as [storage|] eqn:Hview.
      * rewrite map_emplace_lookup, decide_True by done.
        by destruct (tables_copy !! n).
      * destruct (tables_copy !! n); [done|]. by case_decide.
    + assert ((tables_copy !! k = None → match view n with
                | Some storage => (map_emplace n storage tables_copy).1
                | None => tables_copy
                end !! k = None)
              ∧ ∀ storage, tables_copy !! k = Some storage → match view n with
                | Some storage => (map_emplace n storage tables_copy).1
                | None => tables_copy
                end !! k = Some storage) as [Hnone Hsome].
      { destruct (view n); [|done]. rewrite map_emplace_lookup.
        split; [intros ->; by rewrite decide_False|by intros ? ->]. }
      destruct (tables_copy !! k) as [storage|].
      * by rewrite (Hsome storage).
      * rewrite Hnone by done. apply decide_ext. rewrite elem_of_cons. tauto.
  - rewrite created_views_app, Hviews1. apply Forall_app. split.
    + destruct (view n) as [storage|] eqn:Hview; cbn; [|by constructor].
      constructor; [|by constructor]. exists n. split; [apply list_elem_of_here|done].
    + eapply Forall_impl; [exact Hviews|]. cbn. intros storage (n' & Hin & Hview).
      exists n'. split; [by apply list_elem_of_further|done].
Qed.

Lemma getTablesIterator_creates context filter m :
  getTablesIterator context filter m
  = (Returned (length (heap m)),
     {| this := this m;
        heap := heap m ++ [DatabaseTablesSnapshotIterator
                             (select_tables filter (tables (this m)))] |},
     [mutex_lock; mutex_unlock]).
Proof.
  unfold getTablesIterator. run.
  destruct filter as [f|]; run; [|done]. by rewrite filter_tables_filter.
Qed.

Lemma getDictionariesIterator_creates context filter m :
  getDictionariesIterator context filter m
  = (Returned (length (heap m)),
     {| this := this m;
        heap := heap m ++ [DatabaseDictionariesSnapshotIterator
                             (select_dictionaries filter (dictionaries (this m)))] |},
     [mutex_lock; mutex_unlock]).
Proof.
  unfold getDictionariesIterator. run.
  destruct filter as [f|]; run; [|done]. by rewrite filter_dictionaries_filter.
Qed.

(** [getTablesWithDictionaryTablesIterator] always returns a new snapshot
    and leaves the registry alone.  The views it creates are those of the
    dictionary names that pass the filter.  Without a filter the snapshot
    holds the table entries and, under the names that are not taken, these
    views; with a filter it holds the filtered table entries and nothing
    else. *)
Lemma getTablesWithDictionaryTablesIterator_creates context filter m :
  let db := this m in
  let view := dictionary_view getStructure getNamesAndTypes context db (passes filter) in
  ∃ snapshot t,
    getTablesWithDictionaryTablesIterator getStructure getNamesAndTypes context filter m
    = (Returned (length (heap m)),
       {| this := db; heap := heap m ++ [DatabaseTablesSnapshotIterator snapshot] |},
       mutex_lock :: t ++ [mutex_unlock])
    ∧ Forall (λ storage, ∃ n, n ∈ dictionaries db ∧ view n = Some storage) (created_views t)
    ∧ (filter = None →
         ∀ k, snapshot !! k
              = match tables db !! k with
                | Some storage => Some storage
                | None => if decide (k ∈ dictionaries db) then view k else None
                end)
    ∧ (∀ f, filter = Some f → snapshot = select_tables filter (tables db)).
Proof.
  intros db view. subst db view.
  unfold getTablesWithDictionaryTablesIterator, lock_guard.
  destruct (dictionaries_loop_returns context (this m) (passes filter)
              (members (dictionaries (this m))) (tables (this m)) m)
    as (tables_copy & t & Hloop & Hlookup & Hviews).
  assert (Forall (λ storage, ∃ n, n ∈ dictionaries (this m)
                   ∧ dictionary_view getStructure getNamesAndTypes context (this m)
                       (passes filter) n = Some storage) (created_views t)) as Hviews'.
  { eapply Forall_impl; [exact Hviews|]. cbn. intros storage (n & Hin & Hview).
    exists n. by rewrite <-elem_of_members. }
  destruct filter as [f|].
  - exists (filter_tables f (tables (this m))), t. split; [|split; [done|split; [done|]]].
    + erewrite bind_returned by done. erewrite bind_returned by exact Hloop.
      run. by rewrite app_nil_r.
    + intros ? _. apply filter_tables_filter.
  - exists tables_copy, t. split; [|split; [done|split; [|done]]].
    + erewrite bind_returned by done. erewrite bind_returned by exact Hloop.
      run. by rewrite app_nil_r.
    + intros _ k. rewrite Hlookup. destruct (tables (this m) !! k); [done|].
      apply decide_ext, elem_of_members.
Qed.

(** C9: the iterator that [getTablesIterator], [getDictionariesIterator] or
    [getTablesWithDictionaryTablesIterator] returns is an object of its
    own.  Whatever calls are made on the registry afterwards (attach,
    detach, shutdown or any other), the iterator still holds what it held
    when it was created: for the first two, the table entries, or the
    dictionary names, of the moment of creation that pass the filter. *)
Theorem snapshot_iterators_are_frozen context filter m (calls : list (Call IDictionaryBase)) :
  let later := perform_all getStructure getNamesAndTypes IStorage_shutdown calls in
  (∃ p,
     outcome (getTablesIterator context filter) m = Returned p
     ∧ heap (later (after (getTablesIterator context filter) m)) !! p
       = Some (DatabaseTablesSnapshotIterator (select_tables filter (tables (this m)))))
  ∧ (∃ p,
       outcome (getDictionariesIterator context filter) m = Returned p
       ∧ heap (later (after (getDictionariesIterator context filter) m)) !! p
         = Some (DatabaseDictionariesSnapshotIterator
                   (select_dictionaries filter (dictionaries (this m)))))
  ∧ (∃ p snapshot,
       let create :=
         getTablesWithDictionaryTablesIterator getStructure getNamesAndTypes context filter in
       outcome create m = Returned p
       ∧ heap (after create m) !! p = Some snapshot
       ∧ heap (later (after create m)) !! p = Some snapshot).
Proof.
  intros later. subst later. split_and!.
  - exists (length (heap m)). unfold outcome, after.
    rewrite getTablesIterator_creates. cbn [fst snd]. split; [done|].
    apply perform_all_lookup. cbn. by rewrite lookup_app_r, Nat.sub_diag.
  - exists (length (heap m)). unfold outcome, after.
    rewrite getDictionariesIterator_creates. cbn [fst snd]. split; [done|].
    apply perform_all_lookup. cbn. by rewrite lookup_app_r, Nat.sub_diag.
  - destruct (getTablesWithDictionaryTablesIterator_creates context filter m)
      as (snapshot & t & Hcreate & _).
    exists (length (heap m)), (DatabaseTablesSnapshotIterator snapshot).
    cbv zeta. unfold outcome, after. rewrite Hcreate. cbn [fst snd].
    assert (∀ (h : list SnapshotIterator) obj, (h ++ [obj]) !! length h = Some obj) as Hlast.
    { intros h obj. by rewrite lookup_app_r, Nat.sub_diag. }
    split_and!; [done|apply Hlast|]. apply perform_all_lookup. apply Hlast.
Qed.

(** C2, amended: in every call of the registry the mutex is free at the
    moment the loader's [reload] is called and at the moment a storage's
    [shutdown] is invoked.  (The loader's [tryGetDictionary] is left out:
    see [perform_respects_inside].) *)
Theorem mutex_free_during_reload_and_shutdown (c : Call IDictionaryBase) m :
  never_under_lock (λ e, is_reload e || is_storage_shutdown e)
    (perform getStructure getNamesAndTypes IStorage_shutdown c m).2 = true.
Proof. apply perform_respects_outside. Qed.

End Properties.

(** * The properties at work on the example server *)

(** C1: [getTablesWithDictionaryTablesIterator] with a filter that lets
    every name pass, on database [db] with table [t] and dictionary [d]
    whose view can be built.  The view of [d] is built (it passes the
    filter) and emplaced into [tables_copy], but the iterator is made from
    [filtered_tables]: it holds [t] alone.  Without a filter the same
    database yields [t] and the view of [d]. *)
Theorem getTablesWithDictionaryTablesIterator_filter_loses_views :
  let create :=
    getTablesWithDictionaryTablesIterator Example.getStructure Example.getNamesAndTypes
      Example.context in
  let pass_all : FilterByNameFunction := Some (λ _, true) in
  outcome (create pass_all) Example.machine = Returned 0
  ∧ heap (after (create pass_all) Example.machine)
    = [DatabaseTablesSnapshotIterator {[ "t" := Storage 1 ]}]
  ∧ created_views (events (create pass_all) Example.machine) = [Example.view_d]
  ∧ heap (after (create None) Example.machine)
    = [DatabaseTablesSnapshotIterator {[ "t" := Storage 1; "d" := Example.view_d ]}].
Proof. vm_compute. done. Qed.

(** C2, as stated, fails: [tryGetTable] on the dictionary name [d] calls
    the loader's [tryGetDictionary] between locking and unlocking the
    mutex. *)
Lemma tryGetTable_calls_loader_under_lock :
  let call :=
    tryGetTable Example.getStructure Example.getNamesAndTypes Example.context "d" in
  events call Example.machine
  = [mutex_lock; call_tryGetDictionary "db.d";
     call_StorageDictionary_create Example.view_d; mutex_unlock]
  ∧ never_under_lock (λ e, is_dictionaries_loader_call e || is_storage_shutdown e)
      (events call Example.machine) = false.
Proof. vm_compute. done. Qed.

(** C3 on the example server: [d] is a dictionary, [x] is unknown, [t] is
    a table. *)
Lemma detachTable_cases_witness :
  (outcome (detachTable "d") Example.machine
     = Thrown (cannot_detach_dictionary Example.db "d")
   ∧ after (detachTable "d") Example.machine = Example.machine)
  ∧ (outcome (detachTable "x") Example.machine
       = Thrown (table_does_not_exist Example.db "x")
     ∧ after (detachTable "x") Example.machine = Example.machine)
  ∧ (outcome (detachTable "t") Example.machine = Returned (Storage 1)
     ∧ tables (this (after (detachTable "t") Example.machine))
       = delete "t" (tables Example.db)
     ∧ dictionaries (this (after (detachTable "t") Example.machine))
       = dictionaries Example.db).
Proof.
  destruct (detachTable_cases "d" Example.machine) as (Hdictionary & _ & _).
  destruct (detachTable_cases "x" Example.machine) as (_ & Hunknown & _).
  destruct (detachTable_cases "t" Example.machine) as (_ & _ & Htable).
  split; [|split].
  - apply Hdictionary. vm_compute. reflexivity.
  - apply Hunknown; vm_compute; [discriminate|reflexivity].
  - apply Htable; vm_compute; [discriminate|reflexivity].
Defined.

(** C5 on the example server: the table [t]; the dictionary [d] when the
    loader has it and when it has not; the unknown name [x]; and [d] once
    it is a table as well as a dictionary. *)
Lemma tryGetTable_cases_witness :
  let tryGetTable := tryGetTable Example.getStructure Example.getNamesAndTypes in
  outcome (tryGetTable Example.context "t") Example.machine = Returned (Some (Storage 1))
  ∧ outcome (tryGetTable Example.context "d") Example.machine
    = Returned (Some Example.view_d)
  ∧ outcome (tryGetTable Example.failing_context "d") Example.machine = Returned None
  ∧ outcome (tryGetTable Example.context "x") Example.machine = Returned None
  ∧ outcome (tryGetTable Example.context "d") Example.shadowing_machine
    = Returned (Some (Storage 2)).
Proof.
  pose proof (tryGetTable_cases Example.getStructure Example.getNamesAndTypes) as Hcases.
  destruct (Hcases Example.context "t" Example.machine) as (_ & Htable & _).
  destruct (Hcases Example.context "d" Example.machine) as (_ & _ & Hview & _).
  destruct (Hcases Example.failing_context "d" Example.machine) as (_ & _ & _ & Hnone & _).
  destruct (Hcases Example.context "x" Example.machine) as (_ & _ & _ & _ & Hunknown).
  destruct (Hcases Example.context "d" Example.shadowing_machine) as (_ & Hshadow & _).
  cbv zeta. split_and!.
  - apply (Htable (Storage 1)). vm_compute. reflexivity.
  - apply (Hview [("id", "UInt64")]); vm_compute; reflexivity.
  - apply Hnone; vm_compute; reflexivity.
  - apply Hunknown; vm_compute; [reflexivity|discriminate].
  - apply (Hshadow (Storage 2)). vm_compute. reflexivity.
Defined.

(** C7 on the example server: [d] is a dictionary name and no table. *)
Lemma attachTable_ignores_dictionaries_witness :
  "d" ∈ dictionaries Example.db
  ∧ outcome (attachTable "d" (Storage 2)) Example.machine = Returned ()
  ∧ tables (this (after (attachTable "d" (Storage 2)) Example.machine))
    = <["d" := Storage 2]> (tables Example.db)
  ∧ dictionaries (this (after (attachTable "d" (Storage 2)) Example.machine))
    = dictionaries Example.db.
Proof.
  split; [vm_compute; reflexivity|].
  apply (attachTable_ignores_dictionaries "d" (Storage 2) Example.machine).
  vm_compute. reflexivity.
Defined.

(** C8 on the example server: the dictionary [d] has no table entry. *)
Lemma isTableExist_iff_witness :
  outcome (isTableExist Example.context "d") Example.machine = Returned true.
Proof.
  destruct (isTableExist_iff Example.context "d" Example.machine)
    as (b & Houtcome & _ & _ & Hdictionary).
  rewrite Houtcome. f_equal. apply Hdictionary; vm_compute; reflexivity.
Defined.

(** C10 on the example server, with a loader whose [reload] throws:
    attaching the new dictionary [e], detaching the dictionary [d]. *)
Lemma reload_failure_keeps_mutation_witness :
  (outcome (attachDictionary "e" Example.failing_context true) Example.machine
     = Thrown Example.reload_failure
   ∧ "e" ∈ dictionaries
             (this (after (attachDictionary "e" Example.failing_context true)
                          Example.machine)))
  ∧ (outcome (detachDictionary "d" Example.failing_context) Example.machine
       = Thrown Example.reload_failure
     ∧ "d" ∉ dictionaries
               (this (after (detachDictionary "d" Example.failing_context)
                            Example.machine))).
Proof.
  destruct (reload_failure_keeps_mutation "e" Example.failing_context Example.machine
              Example.reload_failure) as [Hattach _].
  destruct (reload_failure_keeps_mutation "d" Example.failing_context Example.machine
              Example.reload_failure) as [_ Hdetach].
  split.
  - destruct Hattach as (Houtcome & _ & Hin & _);
      [vm_compute; discriminate|vm_compute; reflexivity|].
    split; [exact Houtcome|exact Hin].
  - destruct Hdetach as (Houtcome & _ & Hnotin & _);
      [vm_compute; reflexivity|vm_compute; reflexivity|].
    split; [exact Houtcome|exact Hnotin].
Defined.

(** C9 on the example server: a snapshot of the tables taken before [u] is
    attached and [t] is detached still holds [t] alone, while the table
    map holds [u] alone. *)
Lemma snapshot_iterators_are_frozen_witness :
  let create := getTablesIterator Example.context None in
  let later :=
    perform_all Example.getStructure Example.getNamesAndTypes Example.IStorage_shutdown
      [invoke_attachTable "u" (Storage 3); invoke_detachTable "t"] in
  ∃ p,
    outcome create Example.machine = Returned p
    ∧ heap (later (after create Example.machine)) !! p
      = Some (DatabaseTablesSnapshotIterator {[ "t" := Storage 1 ]})
    ∧ tables (this (later (after create Example.machine))) = {[ "u" := Storage 3 ]}.
Proof.
  destruct (snapshot_iterators_are_frozen
              Example.getStructure Example.getNamesAndTypes Example.IStorage_shutdown
              Example.context None Example.machine
              [invoke_attachTable "u" (Storage 3); invoke_detachTable "t"])
    as ((p & Houtcome & Hheap) & _).
  exists p. split; [exact Houtcome|]. split; [exact Hheap|].
  vm_compute. reflexivity.
Defined.

(** * Further properties of the member functions *)

(** ** The calls as equations *)

Lemma detachTable_run (n : string) (m : Machine) :
  detachTable n m
  = if bool_decide (n ∈ dictionaries (this m))
    then (Thrown (cannot_detach_dictionary (this m) n), m, [mutex_lock; mutex_unlock])
    else match tables (this m) !! n with
         | None => (Thrown (table_does_not_exist (this m) n), m, [mutex_lock; mutex_unlock])
         | Some s =>
             (Returned s,
              {| this := {| name := name (this m); tables := delete n (tables (this m));
                            dictionaries := dictionaries (this m) |};
                 heap := heap m |},
              [mutex_lock; mutex_unlock])
         end.
Proof.
  unfold detachTable. run. case_bool_decide; run; [done|].
  by destruct (tables (this m) !! n).
Qed.

Lemma attachTable_run (n : string) (table : StoragePtr) (m : Machine) :
  attachTable n table m
  = match tables (this m) !! n with
    | Some _ => (Thrown (table_already_exists (this m) n), m, [mutex_lock; mutex_unlock])
    | None =>
        (Returned (),
         {| this := {| name := name (this m); tables := <[n := table]> (tables (this m));
                       dictionaries := dictionaries (this m) |};
            heap := heap m |},
         [mutex_lock; mutex_unlock])
    end.
Proof.
  unfold attachTable, map_emplace. run.
  destruct (tables (this m) !! n); run; [|done]. by destruct m as [[]].
Qed.

Lemma union_singleton_difference (n : string) (d : Dictionaries) :
  n ∉ d → ({[n]} ∪ d) ∖ {[n]} = d.
Proof.
  intros Hin. apply set_eq. intros x.
  rewrite elem_of_difference, elem_of_union, elem_of_singleton.
  split; [by intros [[?|?] ?]|]. intros Hx. split; [by right|]. by intros ->.
Qed.

Lemma not_elem_of_difference_singleton (n : string) (d : Dictionaries) : n ∉ d ∖ {[n]}.
Proof. intros [_ Hn]%elem_of_difference. by apply Hn, elem_of_singleton. Qed.

Section Further.

Context {IDictionaryBase DictionaryStructure : Type}.
Variable getStructure : IDictionaryBase → DictionaryStructure.
Variable getNamesAndTypes : DictionaryStructure → NamesAndTypesList.
Variable IStorage_shutdown : StoragePtr → option Exception.

Implicit Types (m : Machine) (context : Context IDictionaryBase)
  (n table_name dictionary_name : string) (s table : StoragePtr).

Lemma detachDictionary_run n context m :
  detachDictionary n context m
  = if bool_decide (n ∈ dictionaries (this m))
    then
      let dict_name := name (this m) +:+ "." +:+ n in
      let result := reload (getExternalDictionariesLoader context) dict_name true in
      (match result with Some e => Thrown e | None => Returned () end,
       {| this := {| name := name (this m); tables := tables (this m);
                     dictionaries := dictionaries (this m) ∖ {[n]} |};
          heap := heap m |},
       [mutex_lock; mutex_unlock; call_reload dict_name true])
    else (Thrown (dictionary_does_not_exist (this m) n), m, [mutex_lock; mutex_unlock]).
Proof.
  unfold detachDictionary. run. case_bool_decide; run; [|done].
  by destruct (reload _ _ _).
Qed.

Lemma attachDictionary_run n context load m :
  attachDictionary n context load m
  = if bool_decide (n ∈ dictionaries (this m))
    then (Thrown (dictionary_already_exists (this m) n), m, [mutex_lock; mutex_unlock])
    else
      let dict_name := name (this m) +:+ "." +:+ n in
      let wait := negb (getBool (getConfigRef context) "dictionaries_lazy_load" true) in
      let result := reload (getExternalDictionariesLoader context) dict_name wait in
      (if load then match result with Some e => Thrown e | None => Returned () end
       else Returned (),
       {| this := {| name := name (this m); tables := tables (this m);
                     dictionaries := {[n]} ∪ dictionaries (this m) |};
          heap := heap m |},
       mutex_lock :: mutex_unlock :: (if load then [call_reload dict_name wait] else [])).
Proof.
  unfold attachDictionary, set_emplace. run.
  case_bool_decide as Hin.
  - rewrite decide_True by done. run. by destruct m as [[]].
  - rewrite decide_False by done. run. destruct load; run; [|done].
    by destruct (reload _ _ _).
Qed.

Lemma tryGetTable_run context n m :
  tryGetTable getStructure getNamesAndTypes context n m
  = match tables (this m) !! n with
    | Some s => (Returned (Some s), m, [mutex_lock; mutex_unlock])
    | None =>
        if bool_decide (n ∈ dictionaries (this m))
        then
          let dict_name := name (this m) +:+ "." +:+ n in
          match tryGetDictionary (getExternalDictionariesLoader context) dict_name with
          | Some dict =>
              let view := view_of getStructure getNamesAndTypes (name (this m)) n dict in
              (Returned (Some view), m,
               [mutex_lock; call_tryGetDictionary dict_name;
                call_StorageDictionary_create view; mutex_unlock])
          | None =>
              (Returned None, m, [mutex_lock; call_tryGetDictionary dict_name; mutex_unlock])
          end
        else (Returned None, m, [mutex_lock; mutex_unlock])
    end.
Proof.
  unfold tryGetTable, getDictionaryStorage, StorageDictionary_create, view_of. run.
  destruct (tables (this m) !! n); run; [done|].
  case_bool_decide; run; [|done]. by destruct (tryGetDictionary _ _).
Qed.

Lemma isTableExist_run context n m :
  isTableExist context n m
  = (Returned (bool_decide (n ∈ dom (tables (this m)))
               || bool_decide (n ∈ dictionaries (this m))), m, [mutex_lock; mutex_unlock]).
Proof. unfold isTableExist. by run. Qed.

Lemma isDictionaryExist_run context n m :
  isDictionaryExist context n m
  = (Returned (bool_decide (n ∈ dictionaries (this m))), m, [mutex_lock; mutex_unlock]).
Proof. unfold isDictionaryExist. by run. Qed.

(** ** Detaching and attaching dictionaries *)

(** X1: [detachDictionary n] on a name that is no dictionary throws the
    ["Dictionary ... doesn't exist."] exception with [UNKNOWN_TABLE],
    changes nothing and does not call the loader.  On a dictionary name it
    removes [n] from the set, leaves the table map alone and then, with
    the mutex released, calls [reload] of [db.n] with the flag [true],
    whatever the configuration says; its outcome is that of [reload]. *)
Theorem detachDictionary_cases n context m :
  let db := this m in
  let dict_name := name db +:+ "." +:+ n in
  let call := detachDictionary n context in
  (n ∉ dictionaries db →
     outcome call m = Thrown (dictionary_does_not_exist db n)
     ∧ after call m = m
     ∧ events call m = [mutex_lock; mutex_unlock])
  ∧ (n ∈ dictionaries db →
       outcome call m
         = match reload (getExternalDictionariesLoader context) dict_name true with
           | Some e => Thrown e
           | None => Returned ()
           end
       ∧ dictionaries (this (after call m)) = (dictionaries db ∖ {[n]})
       ∧ tables (this (after call m)) = tables db
       ∧ events call m = [mutex_lock; mutex_unlock; call_reload dict_name true]).
Proof.
  intros db dict_name call. subst db dict_name call.
  unfold outcome, after, events. rewrite detachDictionary_run.
  case_bool_decide as Hin; cbn; split; intros; done.
Qed.

(** X2: [attachDictionary] of a new name with [load] unset returns without
    any call to the loader.  With [load] set it calls [reload] of [db.n]
    exactly once, after the mutex is released, and waits for the
    dictionary exactly when the configuration sets
    [dictionaries_lazy_load] to false: a configuration without the key
    means lazy loading. *)
Theorem attachDictionary_reload_policy n context m :
  n ∉ dictionaries (this m) →
  let dict_name := name (this m) +:+ "." +:+ n in
  let wait := match getConfigRef context !! "dictionaries_lazy_load" with
              | Some lazy_load => negb lazy_load
              | None => false
              end in
  (outcome (attachDictionary n context false) m = Returned ()
   ∧ events (attachDictionary n context false) m = [mutex_lock; mutex_unlock])
  ∧ events (attachDictionary n context true) m
    = [mutex_lock; mutex_unlock; call_reload dict_name wait]
  ∧ outcome (attachDictionary n context true) m
    = match reload (getExternalDictionariesLoader context) dict_name wait with
      | Some e => Thrown e
      | None => Returned ()
      end.
Proof.
  intros Hin dict_name wait.
  assert (negb (getBool (getConfigRef context) "dictionaries_lazy_load" true) = wait) as Hwait.
  { unfold getBool, wait. by destruct (getConfigRef context !! _). }
  unfold outcome, events. rewrite !attachDictionary_run.
  rewrite bool_decide_eq_false_2 by done. cbn. rewrite Hwait. done.
Qed.

(** X5: attaching a new dictionary name and detaching it again gives the
    registry back as it was, whatever [reload] does in either call (the
    change of the set is made before the loader is called). *)
Theorem attach_detach_dictionary_round_trip n context load context' m :
  n ∉ dictionaries (this m) →
  let m1 := after (attachDictionary n context load) m in
  n ∈ dictionaries (this m1)
  ∧ after (detachDictionary n context') m1 = m.
Proof.
  intros Hin m1. subst m1. unfold after.
  rewrite attachDictionary_run, bool_decide_eq_false_2 by done. cbn.
  split; [apply elem_of_union_l, elem_of_singleton; done|].
  rewrite detachDictionary_run. cbn.
  rewrite bool_decide_eq_true_2 by (apply elem_of_union_l, elem_of_singleton; done). cbn.
  destruct m as [[name_ tables_ dictionaries_] heap_]. cbn in *. do 2 f_equal.
  by apply union_singleton_difference.
Qed.

(** ** Attaching and detaching tables *)

(** X3: attaching a table under a name that is neither a table key nor a
    dictionary name and detaching it again returns the very handle that
    was attached and gives the machine back as it was. *)
Theorem attach_detach_table_round_trip n table m :
  tables (this m) !! n = None → n ∉ dictionaries (this m) →
  let m1 := after (attachTable n table) m in
  outcome (detachTable n) m1 = Returned table
  ∧ after (detachTable n) m1 = m.
Proof.
  intros Hlookup Hin m1. subst m1. unfold outcome, after.
  rewrite attachTable_run, Hlookup. cbn.
  rewrite detachTable_run. cbn.
  rewrite bool_decide_eq_false_2, lookup_insert_eq by done. cbn.
  split; [done|]. rewrite delete_insert_id by done. by destruct m as [[]].
Qed.

(** X4: a table can be attached under the name of a dictionary, but then
    [detachTable] refuses to give it back for as long as the dictionary is
    attached: it throws ["Cannot detach dictionary"] and the table stays.
    Once [detachDictionary] has run (whatever [reload] did), [detachTable]
    returns the handle. *)
Theorem table_under_dictionary_name n table context m :
  tables (this m) !! n = None → n ∈ dictionaries (this m) →
  let m1 := after (attachTable n table) m in
  let m2 := after (detachDictionary n context) m1 in
  outcome (attachTable n table) m = Returned ()
  ∧ outcome (detachTable n) m1 = Thrown (cannot_detach_dictionary (this m) n)
  ∧ tables (this (after (detachTable n) m1)) !! n = Some table
  ∧ outcome (detachTable n) m2 = Returned table
  ∧ tables (this (after (detachTable n) m2)) = tables (this m).
Proof.
  intros Hlookup Hin m1 m2. subst m1 m2. unfold outcome, after.
  rewrite attachTable_run, Hlookup. cbn.
  rewrite detachDictionary_run. cbn. rewrite bool_decide_eq_true_2 by done. cbn.
  rewrite !detachTable_run. cbn.
  rewrite bool_decide_eq_true_2 by done.
  rewrite bool_decide_eq_false_2 by apply not_elem_of_difference_singleton.
  rewrite lookup_insert_eq. cbn.
  split_and!; [done|done|apply lookup_insert_eq|done|by apply delete_insert_id].
Qed.

(** ** What the four changing calls do to the registry, however they end *)

Lemma this_after_attachTable n table m :
  this (after (attachTable n table) m)
  = {| name := name (this m);
       tables := match tables (this m) !! n with
                 | Some _ => tables (this m)
                 | None => <[n := table]> (tables (this m))
                 end;
       dictionaries := dictionaries (this m) |}.
Proof.
  unfold after. rewrite attachTable_run.
  destruct (tables (this m) !! n); cbn; [|done]. by destruct m as [[]].
Qed.

Lemma this_after_detachTable n m :
  this (after (detachTable n) m)
  = {| name := name (this m);
       tables := if bool_decide (n ∈ dictionaries (this m))
                 then tables (this m) else delete n (tables (this m));
       dictionaries := dictionaries (this m) |}.
Proof.
  unfold after. rewrite detachTable_run. case_bool_decide; cbn.
  - by destruct m as [[]].
  - destruct (tables (this m) !! n) eqn:Hlookup; cbn; [done|].
    rewrite delete_id by done. by destruct m as [[]].
Qed.

Lemma this_after_attachDictionary n context load m :
  this (after (attachDictionary n context load) m)
  = {| name := name (this m); tables := tables (this m);
       dictionaries := {[n]} ∪ dictionaries (this m) |}.
Proof.
  unfold after. rewrite attachDictionary_run. case_bool_decide; cbn; [|done].
  rewrite subseteq_union_1_L by (by apply singleton_subseteq_l).
  by destruct m as [[]].
Qed.

Lemma this_after_detachDictionary n context m :
  this (after (detachDictionary n context) m)
  = {| name := name (this m); tables := tables (this m);
       dictionaries := dictionaries (this m) ∖ {[n]} |}.
Proof.
  unfold after. rewrite detachDictionary_run. case_bool_decide; cbn; [done|].
  rewrite difference_disjoint_L by (by apply disjoint_singleton_r).
  by destruct m as [[]].
Qed.

(** ** Existence checks after a change *)

(** X6: right after [attachTable n], whether it returned or threw,
    [isTableExist n] answers [true].  Right after [detachTable n] it
    answers [true] exactly when [n] is a dictionary name; so after a
    [detachTable n] that returned a handle it answers [false]. *)
Theorem isTableExist_after_table_calls n context m :
  (∀ table,
     outcome (isTableExist context n) (after (attachTable n table) m) = Returned true)
  ∧ outcome (isTableExist context n) (after (detachTable n) m)
    = Returned (bool_decide (n ∈ dictionaries (this m)))
  ∧ (∀ s, outcome (detachTable n) m = Returned s →
          outcome (isTableExist context n) (after (detachTable n) m) = Returned false).
Proof.
  assert (outcome (isTableExist context n) (after (detachTable n) m)
          = Returned (bool_decide (n ∈ dictionaries (this m)))) as Hdetach.
  { unfold outcome. rewrite isTableExist_run. cbn [fst]. f_equal.
    rewrite this_after_detachTable. cbn [tables dictionaries].
    destruct (decide (n ∈ dictionaries (this m))) as [Hin|Hin].
    - rewrite !(bool_decide_eq_true_2 (n ∈ dictionaries (this m))) by done.
      apply orb_true_r.
    - rewrite !(bool_decide_eq_false_2 (n ∈ dictionaries (this m))) by done.
      rewrite orb_false_r. apply bool_decide_eq_false_2.
      rewrite elem_of_dom, lookup_delete_eq. by intros [? ?]. }
  split_and!; [|done|].
  - intros table. unfold outcome. rewrite isTableExist_run. cbn [fst]. f_equal.
    rewrite this_after_attachTable. cbn [tables dictionaries].
    apply orb_true_iff. left. apply bool_decide_eq_true_2, elem_of_dom.
    destruct (tables (this m) !! n) as [s|] eqn:Hlookup; [by rewrite Hlookup|].
    by rewrite lookup_insert_eq.
  - intros s Hreturned. rewrite Hdetach. f_equal. apply bool_decide_eq_false_2.
    intros Hin. unfold outcome in Hreturned. rewrite detachTable_run in Hreturned.
    by rewrite bool_decide_eq_true_2 in Hreturned.
Qed.

(** X7: right after [attachDictionary n], however it ended (the name was
    taken, or [reload] threw), [isDictionaryExist n] answers [true]; right
    after [detachDictionary n], however it ended, it answers [false], and
    [isTableExist n] then tells whether [n] is a table key. *)
Theorem isDictionaryExist_after_dictionary_calls n context context' load m :
  outcome (isDictionaryExist context n) (after (attachDictionary n context' load) m)
    = Returned true
  ∧ outcome (isDictionaryExist context n) (after (detachDictionary n context') m)
    = Returned false
  ∧ outcome (isTableExist context n) (after (detachDictionary n context') m)
    = Returned (bool_decide (n ∈ dom (tables (this m)))).
Proof.
  unfold outcome. rewrite !isDictionaryExist_run, isTableExist_run. cbn [fst].
  rewrite this_after_attachDictionary, this_after_detachDictionary.
  cbn [tables dictionaries]. split_and!; f_equal.
  - apply bool_decide_eq_true_2, elem_of_union_l, elem_of_singleton. done.
  - apply bool_decide_eq_false_2, not_elem_of_difference_singleton.
  - rewrite (bool_decide_eq_false_2 (n ∈ dictionaries (this m) ∖ {[n]}))
      by apply not_elem_of_difference_singleton.
    apply orb_false_r.
Qed.

(** What [tryGetTable n] does depends on the database name, on the entry
    of [n] in the table map and on whether [n] is a dictionary name, and
    on nothing else of the registry. *)
Lemma tryGetTable_depends context n m1 m2 :
  name (this m1) = name (this m2) →
  tables (this m1) !! n = tables (this m2) !! n →
  (n ∈ dictionaries (this m1) ↔ n ∈ dictionaries (this m2)) →
  outcome (tryGetTable getStructure getNamesAndTypes context n) m1
    = outcome (tryGetTable getStructure getNamesAndTypes context n) m2
  ∧ events (tryGetTable getStructure getNamesAndTypes context n) m1
    = events (tryGetTable getStructure getNamesAndTypes context n) m2.
Proof.
  intros Hname Htables Hdictionaries. unfold outcome, events.
  rewrite !tryGetTable_run, Hname, Htables.
  rewrite (bool_decide_ext _ _ Hdictionaries).
  destruct (tables (this m2) !! n); [done|].
  case_bool_decide; [|done]. cbv zeta.
  by destruct (tryGetDictionary (getExternalDictionariesLoader context) _).
Qed.

(** X8: attaching or detaching a table or a dictionary under the name [n]
    changes nothing about what [tryGetTable] returns, and does, for any
    other name. *)
Theorem tryGetTable_other_name n n' context context' table load m :
  n ≠ n' →
  let same m' :=
    outcome (tryGetTable getStructure getNamesAndTypes context n') m'
      = outcome (tryGetTable getStructure getNamesAndTypes context n') m
    ∧ events (tryGetTable getStructure getNamesAndTypes context n') m'
      = events (tryGetTable getStructure getNamesAndTypes context n') m in
  same (after (attachTable n table) m)
  ∧ same (after (detachTable n) m)
  ∧ same (after (attachDictionary n context' load) m)
  ∧ same (after (detachDictionary n context') m).
Proof.
  intros Hne same. subst same. cbv beta. split_and!; apply tryGetTable_depends.
  all: rewrite ?this_after_attachTable, ?this_after_detachTable,
    ?this_after_attachDictionary, ?this_after_detachDictionary;
    cbn [name tables dictionaries]; try done.
  all: first
    [ destruct (tables (this m) !! n); [done|by rewrite lookup_insert_ne]
    | case_bool_decide; [done|by rewrite lookup_delete_ne]
    | rewrite elem_of_union, elem_of_singleton; split; [by intros [?|?]|by right]
    | rewrite elem_of_difference, elem_of_singleton; split; [by intros [? ?]|done] ].
Qed.

(** ** Shutdown and the destructor *)

Lemma shutdown_loop_run (range : list (string * StoragePtr)) m :
  for_each range (λ kv _, external_call (call_shutdown kv.2) (IStorage_shutdown kv.2)) () m
  = (match (shut_down_until_throw IStorage_shutdown range).2 with
     | Some e => Thrown e
     | None => Returned ()
     end, m, call_shutdown <$> (shut_down_until_throw IStorage_shutdown range).1).
Proof.
  induction range as [|kv range IH]; [done|].
  cbn [for_each shut_down_until_throw].
  destruct (IStorage_shutdown kv.2) as [e|] eqn:Hkv.
  - erewrite bind_thrown; [done|]. by run.
  - erewrite bind_returned by (by run). rewrite IH.
    by destruct (shut_down_until_throw IStorage_shutdown range) as [reached [e|]].
Qed.

(** [shutdown] as an equation: when the loop ends with an exception the
    final block is never reached. *)
Lemma shutdown_run m :
  let '(reached, thrown) :=
    shut_down_until_throw IStorage_shutdown (entries (tables (this m))) in
  shutdown IStorage_shutdown m
  = match thrown with
    | Some e =>
        (Thrown e, m, [mutex_lock; mutex_unlock] ++ (call_shutdown <$> reached))
    | None =>
        (Returned (),
         {| this := {| name := name (this m); tables := ∅; dictionaries := ∅ |};
            heap := heap m |},
         [mutex_lock; mutex_unlock] ++ (call_shutdown <$> reached)
           ++ [mutex_lock; mutex_unlock])
    end.
Proof.
  destruct (shut_down_until_throw _ _) as [reached thrown] eqn:Hloop.
  pose proof (shutdown_loop_run (entries (tables (this m))) m) as Hrun.
  rewrite Hloop in Hrun. cbn [fst snd] in Hrun.
  unfold shutdown. erewrite bind_returned by (by run). cbv beta.
  destruct thrown as [e|].
  - by erewrite bind_thrown by exact Hrun.
  - erewrite bind_returned by exact Hrun. by run.
Qed.

Lemma shut_down_until_throw_all (range : list (string * StoragePtr)) :
  (∀ kv, kv ∈ range → IStorage_shutdown kv.2 = None) →
  shut_down_until_throw IStorage_shutdown range = (range.*2, None).
Proof.
  induction range as [|kv range IH]; intros Hok; [done|].
  cbn [shut_down_until_throw]. rewrite (Hok kv) by (by left).
  rewrite IH by (intros ? ?; apply Hok; by right). done.
Qed.

Lemma shut_down_until_throw_first (before rest : list (string * StoragePtr)) n s e :
  (∀ kv, kv ∈ before → IStorage_shutdown kv.2 = None) →
  IStorage_shutdown s = Some e →
  shut_down_until_throw IStorage_shutdown (before ++ (n, s) :: rest)
  = (before.*2 ++ [s], Some e).
Proof.
  intros Hok Hthrows. induction before as [|kv before IH]; cbn.
  - by rewrite Hthrows.
  - rewrite (Hok kv) by (by left).
    rewrite IH by (intros ? ?; apply Hok; by right). done.
Qed.

Lemma shut_down_until_throw_None (range : list (string * StoragePtr)) reached :
  shut_down_until_throw IStorage_shutdown range = (reached, None) →
  ∀ kv, kv ∈ range → IStorage_shutdown kv.2 = None.
Proof.
  revert reached. induction range as [|kv range IH]; intros reached Hloop kv' Hin.
  { by apply elem_of_nil in Hin. }
  cbn [shut_down_until_throw] in Hloop.
  destruct (IStorage_shutdown kv.2) as [e|] eqn:Hkv; [done|].
  destruct (shut_down_until_throw IStorage_shutdown range) as [reached' thrown] eqn:Hrest.
  injection Hloop as _ ->.
  apply elem_of_cons in Hin as [->|Hin]; [done|]. by eapply IH.
Qed.

(** [shutdown] returns exactly when no storage of the table map throws. *)
Lemma shutdown_returns_iff m :
  outcome (shutdown IStorage_shutdown) m = Returned ()
  ↔ ∀ n s, tables (this m) !! n = Some s → IStorage_shutdown s = None.
Proof.
  pose proof (shutdown_run m) as Hrun. unfold outcome.
  destruct (shut_down_until_throw _ _) as [reached thrown] eqn:Hloop. split.
  - intros Hreturned n s Hlookup. destruct thrown as [e|]; [by rewrite Hrun in Hreturned|].
    apply (shut_down_until_throw_None _ _ Hloop (n, s)).
    rewrite entries_Permutation. by apply elem_of_map_to_list.
  - intros Hok. rewrite shut_down_until_throw_all in Hloop.
    + injection Hloop as _ <-. by rewrite Hrun.
    + intros [n s] Hin. apply (Hok n). apply elem_of_map_to_list.
      by rewrite <-entries_Permutation.
Qed.

(** How often a storage occurs among the values of a list of entries. *)
Lemma count_occ_values (range : list (string * StoragePtr)) s :
  count_occ IStorage_eq_dec range.*2 s = length (filter (λ kv, kv.2 = s) range).
Proof.
  induction range as [|kv range IH]; [done|]. cbn [fmap list_fmap count_occ].
  destruct (IStorage_eq_dec kv.2 s) as [Heq|Hne].
  - rewrite filter_cons_True by done. cbn. by f_equal.
  - by rewrite filter_cons_False.
Qed.



(** X9: when, in key order, the first storage whose [shutdown] throws is
    the one under the name [n], the database's [shutdown] throws that
    exception; the storages before it have been shut down, those after it
    have not, and neither the table map nor the dictionary set has been
    cleared. *)
Theorem shutdown_stops_at_first_throw before n s rest e m :
  entries (tables (this m)) = before ++ (n, s) :: rest →
  (∀ kv, kv ∈ before → IStorage_shutdown kv.2 = None) →
  IStorage_shutdown s = Some e →
  outcome (shutdown IStorage_shutdown) m = Thrown e
  ∧ after (shutdown IStorage_shutdown) m = m
  ∧ shutdown_calls (events (shutdown IStorage_shutdown) m) = before.*2 ++ [s].
Proof.
  intros Hentries Hok Hthrows. pose proof (shutdown_run m) as Hrun.
  rewrite Hentries, (shut_down_until_throw_first _ _ _ _ e) in Hrun by done.
  unfold outcome, after, events. rewrite Hrun. cbn [fst snd].
  split_and!; [done|done|].
  rewrite shutdown_calls_app. cbn. clear.
  induction (before.*2 ++ [s]) as [|s' l IH]; [done|]. cbn. by f_equal.
Qed.

(** The destructor as [shutdown] with its exception turned into the
    logged value. *)
Lemma destructor_run m :
  DatabaseWithOwnTablesBase_destructor IStorage_shutdown m
  = (match outcome (shutdown IStorage_shutdown) m with
     | Returned _ => Returned None
     | Thrown e => Returned (Some e)
     end, after (shutdown IStorage_shutdown) m, events (shutdown IStorage_shutdown) m).
Proof.
  unfold DatabaseWithOwnTablesBase_destructor, try_catch, outcome, after, events.
  destruct (shutdown IStorage_shutdown m) as [[[[]|e] m'] t] eqn:Hshutdown.
  - erewrite bind_returned by exact Hshutdown. run. by rewrite app_nil_r.
  - erewrite bind_thrown by exact Hshutdown. run. by rewrite app_nil_r.
Qed.

(** X10: the destructor never lets an exception out.  When no storage
    throws it does what [shutdown] does and logs nothing.  When, in key
    order, the storage under [n] is the first to throw, the destructor
    logs that exception and returns, having shut down the storages up to
    that one only and having cleared nothing. *)
Theorem destructor_swallows_exception m :
  let destructor := DatabaseWithOwnTablesBase_destructor IStorage_shutdown in
  (∃ logged, outcome destructor m = Returned logged)
  ∧ ((∀ kv, kv ∈ entries (tables (this m)) → IStorage_shutdown kv.2 = None) →
       outcome destructor m = Returned None
       ∧ tables (this (after destructor m)) = ∅
       ∧ dictionaries (this (after destructor m)) = ∅
       ∧ shutdown_calls (events destructor m) = (entries (tables (this m))).*2)
  ∧ (∀ before n s rest e,
       entries (tables (this m)) = before ++ (n, s) :: rest →
       (∀ kv, kv ∈ before → IStorage_shutdown kv.2 = None) →
       IStorage_shutdown s = Some e →
       outcome destructor m = Returned (Some e)
       ∧ after destructor m = m
       ∧ shutdown_calls (events destructor m) = before.*2 ++ [s]).
Proof.
  intros destructor. subst destructor.
  assert (∀ l, shutdown_calls (call_shutdown <$> l) = l) as Hcalls.
  { induction l as [|s' l IH]; [done|]. cbn. by f_equal. }
  pose proof (shutdown_run m) as Hrun.
  unfold outcome, after, events. rewrite destructor_run.
  unfold outcome, after, events. cbn [fst snd].
  split_and!.
  - destruct (shutdown IStorage_shutdown m) as [[[[]|e] m'] t]; by eexists.
  - intros Hok. rewrite shut_down_until_throw_all in Hrun by done.
    rewrite Hrun. cbn [fst snd this tables dictionaries].
    split_and!; [done|done|done|].
    rewrite !shutdown_calls_app, Hcalls. cbn. by rewrite app_nil_r.
  - intros before n s rest e Hentries Hok Hthrows.
    rewrite Hentries, (shut_down_until_throw_first _ _ _ _ e) in Hrun by done.
    rewrite Hrun. cbn [fst snd].
    split_and!; [done|done|].
    by rewrite shutdown_calls_app, Hcalls.
Qed.

(** X15: once [shutdown] has returned, neither a second [shutdown] nor
    the destructor invokes the [shutdown] of any storage again, whatever
    the storages would do: both just take the mutex twice, return and
    leave the registry empty. *)
Theorem no_second_shutdown_of_storages m :
  outcome (shutdown IStorage_shutdown) m = Returned () →
  let m1 := after (shutdown IStorage_shutdown) m in
  shutdown IStorage_shutdown m1
    = (Returned (), m1, [mutex_lock; mutex_unlock; mutex_lock; mutex_unlock])
  ∧ DatabaseWithOwnTablesBase_destructor IStorage_shutdown m1
    = (Returned None, m1, [mutex_lock; mutex_unlock; mutex_lock; mutex_unlock]).
Proof.
  intros Hreturned m1.
  assert (this m1 = {| name := name (this m); tables := ∅; dictionaries := ∅ |}
          ∧ heap m1 = heap m) as [Hthis Hheap].
  { subst m1. pose proof (shutdown_run m) as Hrun. unfold outcome in Hreturned.
    unfold after. destruct (shut_down_until_throw _ _) as [reached [e|]];
      rewrite Hrun in *; [done|]. done. }
  assert (shutdown IStorage_shutdown m1
          = (Returned (), m1, [mutex_lock; mutex_unlock; mutex_lock; mutex_unlock]))
    as Hsecond.
  { pose proof (shutdown_run m1) as Hrun. rewrite Hthis in Hrun. cbn in Hrun.
    rewrite Hrun. destruct m1 as [this1 heap1]. cbn in *. by subst. }
  split; [done|].
  rewrite destructor_run. unfold outcome, after, events. by rewrite Hsecond.
Qed.

(** ** The enumeration with dictionary views *)

Lemma dictionaries_loop_events context db (pass : string → bool) range tables_copy m :
  ∃ tables_copy',
    for_each range
      (λ dictionary_name tables_copy,
         if pass dictionary_name
         then emplace_dictionary_storage getStructure getNamesAndTypes context db
                dictionary_name tables_copy
         else mret tables_copy)
      tables_copy m
    = (Returned tables_copy', m,
       concat (dictionary_round_events getStructure getNamesAndTypes context db pass
                 <$> range)).
Proof.
  revert tables_copy. induction range as [|n range IH]; intros tables_copy.
  { cbn [for_each]. run. by eexists. }
  cbn [for_each fmap list_fmap concat].
  assert (∃ tables_copy1,
            (if pass n
             then emplace_dictionary_storage getStructure getNamesAndTypes context db
                    n tables_copy
             else mret tables_copy) m
            = (Returned tables_copy1, m,
               dictionary_round_events getStructure getNamesAndTypes context db pass n))
    as (tables_copy1 & Hbody).
  { unfold dictionary_round_events. destruct (pass n); [|run; by eexists].
    unfold emplace_dictionary_storage, getDictionaryStorage, StorageDictionary_create, view_of.
    run. destruct (tryGetDictionary _ _); run; by eexists. }
  erewrite bind_returned by exact Hbody.
  destruct (IH tables_copy1) as (tables_copy' & ->). by eexists.
Qed.

Lemma getTablesWithDictionaryTablesIterator_run context filter m :
  ∃ snapshot,
    getTablesWithDictionaryTablesIterator getStructure getNamesAndTypes context filter m
    = (Returned (length (heap m)),
       {| this := this m; heap := heap m ++ [DatabaseTablesSnapshotIterator snapshot] |},
       mutex_lock
       :: concat (dictionary_round_events getStructure getNamesAndTypes context (this m)
                    (passes filter) <$> members (dictionaries (this m)))
       ++ [mutex_unlock]).
Proof.
  unfold getTablesWithDictionaryTablesIterator, lock_guard.
  destruct (dictionaries_loop_events context (this m) (passes filter)
              (members (dictionaries (this m))) (tables (this m)) m)
    as (tables_copy & Hloop).
  destruct filter as [f|].
  - exists (filter_tables f (tables (this m))).
    erewrite bind_returned by done. erewrite bind_returned by exact Hloop.
    run. by rewrite app_nil_r.
  - exists tables_copy.
    erewrite bind_returned by done. erewrite bind_returned by exact Hloop.
    run. by rewrite app_nil_r.
Qed.

(** X13: [getTablesWithDictionaryTablesIterator] asks the loader for
    exactly the dictionary names that pass the filter (all of them when
    there is no filter), once each, in key order and under their qualified
    names, and it creates exactly the views of those among them that the
    loader has.  When no dictionary name passes, it calls neither the
    loader nor the view factory. *)
Theorem enumeration_asks_loader_for_passing_names context filter m :
  let db := this m in
  let t := events (getTablesWithDictionaryTablesIterator getStructure getNamesAndTypes
                     context filter) m in
  loader_lookups t
    = (λ n, name db +:+ "." +:+ n)
        <$> List.filter (passes filter) (members (dictionaries db))
  ∧ created_views t
    = omap (dictionary_view getStructure getNamesAndTypes context db (passes filter))
        (members (dictionaries db))
  ∧ ((∀ n, n ∈ dictionaries db → passes filter n = false) →
       t = [mutex_lock; mutex_unlock]).
Proof.
  intros db t. subst db t. unfold events.
  destruct (getTablesWithDictionaryTablesIterator_run context filter m) as (snapshot & ->).
  cbn [snd].
  assert (∀ t', loader_lookups (mutex_lock :: t' ++ [mutex_unlock]) = loader_lookups t'
                ∧ created_views (mutex_lock :: t' ++ [mutex_unlock]) = created_views t')
    as Hguard.
  { intros t'. unfold loader_lookups, created_views.
    change (mutex_lock :: t' ++ [mutex_unlock]) with ([mutex_lock] ++ t' ++ [mutex_unlock]).
    rewrite !omap_app. cbn. by rewrite !app_nil_r. }
  destruct (Hguard (concat (dictionary_round_events getStructure getNamesAndTypes context
                              (this m) (passes filter) <$> members (dictionaries (this m)))))
    as [-> ->].
  split_and!.
  - induction (members (dictionaries (this m))) as [|n range IH]; [done|].
    cbn [fmap list_fmap concat List.filter]. unfold loader_lookups in *.
    rewrite omap_app, IH. unfold dictionary_round_events.
    destruct (passes filter n); [|done]. cbn.
    by destruct (tryGetDictionary (getExternalDictionariesLoader context) _).
  - induction (members (dictionaries (this m))) as [|n range IH]; [done|].
    cbn [fmap list_fmap concat omap]. unfold created_views in *.
    rewrite omap_app, IH. unfold dictionary_round_events, dictionary_view.
    destruct (passes filter n) eqn:Hpass; cbn; rewrite Hpass; [|done].
    by destruct (tryGetDictionary (getExternalDictionariesLoader context) _).
  - intros Hnone.
    assert (concat (dictionary_round_events getStructure getNamesAndTypes context
                      (this m) (passes filter) <$> members (dictionaries (this m))) = [])
      as ->; [|done].
    assert (∀ n, n ∈ members (dictionaries (this m)) → passes filter n = false) as Hrange.
    { intros n Hn. by apply Hnone, elem_of_members. }
    induction (members (dictionaries (this m))) as [|n range IH]; [done|].
    cbn [fmap list_fmap concat]. unfold dictionary_round_events at 1.
    rewrite (Hrange n) by (by left). cbn.
    apply IH. intros ? ?. apply Hrange. by right.
Qed.

Lemma dictionary_view_all context db k :
  dictionary_view getStructure getNamesAndTypes context db (passes None) k
  = view_of getStructure getNamesAndTypes (name db) k
      <$> tryGetDictionary (getExternalDictionariesLoader context) (name db +:+ "." +:+ k).
Proof. done. Qed.

(** X12: without a filter the snapshot of
    [getTablesWithDictionaryTablesIterator] holds every table entry as it
    is, and, under every dictionary name that is not a table key and whose
    dictionary the loader has, the view of that dictionary; it holds
    nothing under any other name.  A table entry wins over a dictionary of
    the same name.  So the snapshot holds under each name what
    [tryGetTable] returns for that name. *)
Theorem unfiltered_enumeration_merges_views context m :
  let db := this m in
  let create :=
    getTablesWithDictionaryTablesIterator getStructure getNamesAndTypes context None in
  ∃ p snapshot,
    outcome create m = Returned p
    ∧ heap (after create m) !! p = Some (DatabaseTablesSnapshotIterator snapshot)
    ∧ this (after create m) = db
    ∧ ∀ k, snapshot !! k
           = match tables db !! k with
             | Some storage => Some storage
             | None =>
                 if decide (k ∈ dictionaries db)
                 then view_of getStructure getNamesAndTypes (name db) k
                        <$> tryGetDictionary (getExternalDictionariesLoader context)
                              (name db +:+ "." +:+ k)
                 else None
             end
           ∧ outcome (tryGetTable getStructure getNamesAndTypes context k) m
             = Returned (snapshot !! k).
Proof.
  intros db create. subst db create.
  destruct (getTablesWithDictionaryTablesIterator_creates
              getStructure getNamesAndTypes context None m)
    as (snapshot & t & Hcreate & _ & Hmerge & _).
  exists (length (heap m)), snapshot. unfold outcome, after. rewrite Hcreate. cbn [fst snd].
  split_and!; [done| |done|].
  - cbn. by rewrite lookup_app_r, Nat.sub_diag.
  - intros k. rewrite Hmerge by done. split; [done|].
    unfold outcome. rewrite tryGetTable_run, dictionary_view_all.
    destruct (tables (this m) !! k); [done|].
    destruct (decide (k ∈ dictionaries (this m))) as [Hin|Hin].
    + rewrite bool_decide_eq_true_2 by done. cbv zeta.
      by destruct (tryGetDictionary (getExternalDictionariesLoader context) _).
    + by rewrite bool_decide_eq_false_2.
Qed.

(** ** Existence, emptiness and lookup against each other *)

Lemma empty_run context m :
  empty context m
  = (Returned (bool_decide (tables (this m) = ∅) && bool_decide (dictionaries (this m) = ∅)),
     m, [mutex_lock; mutex_unlock]).
Proof. unfold empty. by run. Qed.

(** X18: [empty] answers [true] exactly when [isTableExist] answers
    [false] for every name. *)
Theorem empty_iff_nothing_exists context m :
  outcome (empty context) m = Returned true
  ↔ ∀ n, outcome (isTableExist context n) m = Returned false.
Proof.
  unfold outcome. rewrite empty_run. cbn [fst]. split.
  - intros [= Hempty]. apply andb_true_iff in Hempty as [Htables Hdictionaries].
    apply bool_decide_eq_true in Htables, Hdictionaries.
    intros n. rewrite isTableExist_run. cbn [fst]. f_equal.
    rewrite Htables, Hdictionaries.
    rewrite !bool_decide_eq_false_2; [done|apply not_elem_of_empty|].
    rewrite dom_empty_L. apply not_elem_of_empty.
  - intros Hnone. f_equal. apply andb_true_iff.
    rewrite !bool_decide_eq_true. split.
    + apply map_empty. intros n. specialize (Hnone n).
      rewrite isTableExist_run in Hnone. cbn [fst] in Hnone.
      injection Hnone as Hnone. apply orb_false_iff in Hnone as [Hn _].
      apply bool_decide_eq_false in Hn. by apply not_elem_of_dom.
    + apply set_eq. intros n. specialize (Hnone n).
      rewrite isTableExist_run in Hnone. cbn [fst] in Hnone.
      injection Hnone as Hnone. apply orb_false_iff in Hnone as [_ Hn].
      apply bool_decide_eq_false in Hn. rewrite elem_of_empty. tauto.
Qed.

(** X19: whenever [tryGetTable n] returns a storage, [isTableExist n]
    answers [true].  The converse fails in exactly one case: [n] exists
    and yet [tryGetTable n] returns nothing when [n] is a dictionary name
    without a table entry and the loader does not have the dictionary. *)
Theorem exists_but_cannot_be_got context n m :
  let db := this m in
  let got := outcome (tryGetTable getStructure getNamesAndTypes context n) m in
  ((∃ s, got = Returned (Some s)) → outcome (isTableExist context n) m = Returned true)
  ∧ (outcome (isTableExist context n) m = Returned true ∧ got = Returned None
     ↔ tables db !! n = None ∧ n ∈ dictionaries db
       ∧ tryGetDictionary (getExternalDictionariesLoader context) (name db +:+ "." +:+ n)
         = None).
Proof.
  intros db got. subst db got. unfold outcome.
  rewrite tryGetTable_run, isTableExist_run. cbn [fst].
  destruct (tables (this m) !! n) as [s|] eqn:Hlookup.
  - rewrite (bool_decide_eq_true_2 (n ∈ dom (tables (this m))))
      by (apply elem_of_dom; by rewrite Hlookup).
    cbn. split; [done|]. split; [by intros [_ ?]|by intros [? _]].
  - rewrite (bool_decide_eq_false_2 (n ∈ dom (tables (this m))))
      by (apply not_elem_of_dom; done).
    cbn [orb].
    destruct (decide (n ∈ dictionaries (this m))) as [Hin|Hin].
    + rewrite !(bool_decide_eq_true_2 (n ∈ dictionaries (this m))) by done. cbv zeta.
      destruct (tryGetDictionary (getExternalDictionariesLoader context) _); cbn.
      * split; [done|]. split; [by intros [_ ?]|by intros (_ & _ & ?)].
      * split; [done|]. split; done.
    + rewrite !(bool_decide_eq_false_2 (n ∈ dictionaries (this m))) by done. cbn.
      split; [by intros [? ?]|]. split; [by intros [? _]|by intros (_ & ? & _)].
Qed.


(** ** Every call, one by one *)

Lemma shutdown_calls_quiet (reached : list StoragePtr) :
  Forall (λ e, touches_dictionaries_code e = false) (call_shutdown <$> reached).
Proof. induction reached; by constructor. Qed.

(** What holds of each single call: a query keeps the whole registry, and
    the functions that have no business with dictionaries stay away from
    the dictionaries code. *)
Lemma perform_summary (c : Call IDictionaryBase) m :
  let m' := (perform getStructure getNamesAndTypes IStorage_shutdown c m).1 in
  let t := (perform getStructure getNamesAndTypes IStorage_shutdown c m).2 in
  (is_query c = true → this m' = this m)
  ∧ (reaches_loader c = false → Forall (λ e, touches_dictionaries_code e = false) t).
Proof.
  destruct c as [context n|context n|context n|context filter|context filter|context filter
                |context|n|n context|n table|n context load|];
    cbn [perform discard fst snd is_query reaches_loader]; unfold after, events.
  - rewrite isTableExist_run. cbn. split; [done|]. intros _. by repeat constructor.
  - rewrite isDictionaryExist_run. cbn. split; [done|]. intros _. by repeat constructor.
  - rewrite tryGetTable_run. destruct (tables (this m) !! n); [by cbn|].
    case_bool_decide; [|by cbn]. cbv zeta.
    by destruct (tryGetDictionary (getExternalDictionariesLoader context) _).
  - by destruct (getTablesWithDictionaryTablesIterator_run context filter m)
      as (snapshot & ->).
  - rewrite getTablesIterator_creates. cbn. split; [done|]. intros _. by repeat constructor.
  - rewrite getDictionariesIterator_creates. cbn. split; [done|].
    intros _. by repeat constructor.
  - rewrite empty_run. cbn. split; [done|]. intros _. by repeat constructor.
  - rewrite detachTable_run. case_bool_decide; [|destruct (tables (this m) !! n)]; cbn;
      (split; [done|]; intros _; by repeat constructor).
  - split; done.
  - rewrite attachTable_run. destruct (tables (this m) !! n); cbn;
      (split; [done|]; intros _; by repeat constructor).
  - split; done.
  - pose proof (shutdown_run m) as Hrun.
    destruct (shut_down_until_throw _ _) as [reached [e|]]; rewrite Hrun; cbn [fst snd];
      (split; [done|]); intros _; repeat (constructor; [done|]).
    + apply shutdown_calls_quiet.
    + apply Forall_app. split; [apply shutdown_calls_quiet|by repeat constructor].
Qed.

(** X14: the lookups and the enumerations ([isTableExist],
    [isDictionaryExist], [tryGetTable], [empty] and the three iterator
    functions) leave the name, the table map and the dictionary set as
    they were, also when they build dictionary views. *)
Theorem queries_leave_registry_unchanged (c : Call IDictionaryBase) m :
  is_query c = true →
  this (perform getStructure getNamesAndTypes IStorage_shutdown c m).1 = this m.
Proof. apply perform_summary. Qed.

(** X16: [isTableExist], [isDictionaryExist], [empty], [getTablesIterator],
    [getDictionariesIterator], [attachTable], [detachTable] and [shutdown]
    never call the loader and never create a view; in particular
    [shutdown] drops the dictionary names without telling the loader. *)
Theorem calls_that_stay_away_from_dictionaries (c : Call IDictionaryBase) m :
  reaches_loader c = false →
  Forall (λ e, touches_dictionaries_code e = false)
    (perform getStructure getNamesAndTypes IStorage_shutdown c m).2.
Proof. apply perform_summary. Qed.

End Further.

(** * The further properties at work on the example servers *)

(** X1 on the example server: the unknown name [x] and the dictionary
    [d]. *)
Lemma detachDictionary_cases_witness :
  (outcome (detachDictionary "x" Example.context) Example.machine
     = Thrown (dictionary_does_not_exist Example.db "x")
   ∧ after (detachDictionary "x" Example.context) Example.machine = Example.machine
   ∧ events (detachDictionary "x" Example.context) Example.machine
     = [mutex_lock; mutex_unlock])
  ∧ (outcome (detachDictionary "d" Example.context) Example.machine = Returned ()
     ∧ events (detachDictionary "d" Example.context) Example.machine
       = [mutex_lock; mutex_unlock; call_reload "db.d" true]).
Proof.
  destruct (detachDictionary_cases "x" Example.context Example.machine) as [Habsent _].
  destruct (detachDictionary_cases "d" Example.context Example.machine) as [_ Hpresent].
  split.
  - apply Habsent. vm_compute. discriminate.
  - destruct Hpresent as (Houtcome & _ & _ & Hevents); [vm_compute; reflexivity|].
    split; [exact Houtcome|exact Hevents].
Defined.

(** X2 on the example server, whose configuration is empty: the new
    dictionary [e] is reloaded without waiting. *)
Lemma attachDictionary_reload_policy_witness :
  events (attachDictionary "e" Example.context false) Example.machine
    = [mutex_lock; mutex_unlock]
  ∧ events (attachDictionary "e" Example.context true) Example.machine
    = [mutex_lock; mutex_unlock; call_reload "db.e" false].
Proof.
  destruct (attachDictionary_reload_policy "e" Example.context Example.machine)
    as ((_ & Hquiet) & Hreload & _).
  { vm_compute. discriminate. }
  split; [exact Hquiet|exact Hreload].
Defined.

(** X3 on the example server: the new table [u]. *)
Lemma attach_detach_table_round_trip_witness :
  outcome (detachTable "u") (after (attachTable "u" (Storage 3)) Example.machine)
    = Returned (Storage 3)
  ∧ after (detachTable "u") (after (attachTable "u" (Storage 3)) Example.machine)
    = Example.machine.
Proof.
  apply (attach_detach_table_round_trip "u" (Storage 3) Example.machine).
  - vm_compute. reflexivity.
  - vm_compute. discriminate.
Defined.

(** X4 on the example server: a table under the name of the dictionary
    [d], with a loader whose [reload] throws. *)
Lemma table_under_dictionary_name_witness :
  let m1 := after (attachTable "d" (Storage 2)) Example.machine in
  let m2 := after (detachDictionary "d" Example.failing_context) m1 in
  outcome (detachTable "d") m1 = Thrown (cannot_detach_dictionary Example.db "d")
  ∧ outcome (detachTable "d") m2 = Returned (Storage 2).
Proof.
  destruct (table_under_dictionary_name "d" (Storage 2) Example.failing_context
              Example.machine) as (_ & Hrefused & _ & Hgiven & _).
  - vm_compute. reflexivity.
  - vm_compute. reflexivity.
  - split; [exact Hrefused|exact Hgiven].
Defined.

(** X5 on the example server: the new dictionary [e], with a loader whose
    [reload] throws in both calls. *)
Lemma attach_detach_dictionary_round_trip_witness :
  after (detachDictionary "e" Example.failing_context)
        (after (attachDictionary "e" Example.failing_context true) Example.machine)
  = Example.machine.
Proof.
  apply (attach_detach_dictionary_round_trip "e" Example.failing_context true
           Example.failing_context Example.machine).
  vm_compute. discriminate.
Defined.

(** X6 on the example server: the table [t] is detached. *)
Lemma isTableExist_after_table_calls_witness :
  outcome (isTableExist Example.context "t") (after (detachTable "t") Example.machine)
  = Returned false.
Proof.
  destruct (isTableExist_after_table_calls "t" Example.context Example.machine)
    as (_ & _ & Hdetached).
  apply (Hdetached (Storage 1)). vm_compute. reflexivity.
Defined.

(** X8 on the example server: attaching the table [u] does not change the
    lookup of the dictionary [d]. *)
Lemma tryGetTable_other_name_witness :
  let tryGetTable :=
    tryGetTable Example.getStructure Example.getNamesAndTypes Example.context "d" in
  outcome tryGetTable (after (attachTable "u" (Storage 3)) Example.machine)
  = outcome tryGetTable Example.machine.
Proof.
  destruct (tryGetTable_other_name Example.getStructure Example.getNamesAndTypes
              "u" "d" Example.context Example.context (Storage 3) true Example.machine)
    as ((Houtcome & _) & _).
  - discriminate.
  - exact Houtcome.
Defined.

(** X9 on the server with a failing storage: [a] is shut down, [b] throws,
    [c] is never reached. *)
Lemma shutdown_stops_at_first_throw_witness :
  outcome (shutdown Faulty.IStorage_shutdown) Faulty.machine = Thrown Faulty.failure
  ∧ after (shutdown Faulty.IStorage_shutdown) Faulty.machine = Faulty.machine
  ∧ shutdown_calls (events (shutdown Faulty.IStorage_shutdown) Faulty.machine)
    = [Storage 1; Storage 2].
Proof.
  apply (shutdown_stops_at_first_throw Faulty.IStorage_shutdown
           [("a", Storage 1)] "b" (Storage 2) [("c", Storage 3)] Faulty.failure
           Faulty.machine).
  - vm_compute. reflexivity.
  - intros kv [->|Hnil%elem_of_nil]%elem_of_cons; [reflexivity|destruct Hnil].
  - reflexivity.
Defined.

(** X10 on both servers. *)
Lemma destructor_swallows_exception_witness :
  outcome (DatabaseWithOwnTablesBase_destructor Example.IStorage_shutdown) Example.machine
    = Returned None
  ∧ outcome (DatabaseWithOwnTablesBase_destructor Faulty.IStorage_shutdown) Faulty.machine
    = Returned (Some Faulty.failure)
  ∧ after (DatabaseWithOwnTablesBase_destructor Faulty.IStorage_shutdown) Faulty.machine
    = Faulty.machine.
Proof.
  destruct (destructor_swallows_exception Example.IStorage_shutdown Example.machine)
    as (_ & Hquiet & _).
  destruct (destructor_swallows_exception Faulty.IStorage_shutdown Faulty.machine)
    as (_ & _ & Hlogged).
  destruct Hquiet as (Hnone & _); [intros kv _; reflexivity|].
  destruct (Hlogged [("a", Storage 1)] "b" (Storage 2) [("c", Storage 3)] Faulty.failure)
    as (Hsome & Hsame & _).
  - vm_compute. reflexivity.
  - intros kv [->|Hnil%elem_of_nil]%elem_of_cons; [reflexivity|destruct Hnil].
  - reflexivity.
  - split; [exact Hnone|]. split; [exact Hsome|exact Hsame].
Defined.

(** X15 on the example server. *)
Lemma no_second_shutdown_of_storages_witness :
  let m1 := after (shutdown Example.IStorage_shutdown) Example.machine in
  shutdown_calls (events (shutdown Example.IStorage_shutdown) m1) = []
  ∧ shutdown_calls
      (events (DatabaseWithOwnTablesBase_destructor Example.IStorage_shutdown) m1) = [].
Proof.
  destruct (no_second_shutdown_of_storages Example.IStorage_shutdown Example.machine)
    as [Hshutdown Hdestructor].
  { vm_compute. reflexivity. }
  cbv zeta. unfold events. rewrite Hshutdown, Hdestructor. split; reflexivity.
Defined.

(** X13 on the example server, with a filter that lets no name pass. *)
Lemma enumeration_asks_loader_for_passing_names_witness :
  events (getTablesWithDictionaryTablesIterator Example.getStructure
            Example.getNamesAndTypes Example.context (Some (λ _, false))) Example.machine
  = [mutex_lock; mutex_unlock].
Proof.
  destruct (enumeration_asks_loader_for_passing_names Example.getStructure
              Example.getNamesAndTypes Example.context (Some (λ _, false)) Example.machine)
    as (_ & _ & Hnone).
  apply Hnone. intros n _. reflexivity.
Defined.

(** X14 on the example server: the enumeration that builds the view of
    [d]. *)
Lemma queries_leave_registry_unchanged_witness :
  this (perform Example.getStructure Example.getNamesAndTypes Example.IStorage_shutdown
          (invoke_getTablesWithDictionaryTablesIterator Example.context None)
          Example.machine).1
  = Example.db.
Proof.
  apply (queries_leave_registry_unchanged Example.getStructure Example.getNamesAndTypes
           Example.IStorage_shutdown
           (invoke_getTablesWithDictionaryTablesIterator Example.context None)
           Example.machine).
  reflexivity.
Defined.

(** X16 on the example server: [shutdown]. *)
Lemma calls_that_stay_away_from_dictionaries_witness :
  Forall (λ e, touches_dictionaries_code e = false)
    (perform (IDictionaryBase := NamesAndTypesList) Example.getStructure
       Example.getNamesAndTypes Example.IStorage_shutdown invoke_shutdown Example.machine).2.
Proof.
  apply (calls_that_stay_away_from_dictionaries Example.getStructure
           Example.getNamesAndTypes Example.IStorage_shutdown invoke_shutdown
           Example.machine).
  reflexivity.
Defined.

(** X18 on the example server after its [shutdown]. *)
Lemma empty_iff_nothing_exists_witness :
  let m1 := after (shutdown Example.IStorage_shutdown) Example.machine in
  outcome (isTableExist Example.context "t") m1 = Returned false
  ∧ outcome (isTableExist Example.context "d") m1 = Returned false.
Proof.
  pose proof (proj1 (empty_iff_nothing_exists Example.context
                       (after (shutdown Example.IStorage_shutdown) Example.machine)))
    as Hnothing.
  split; apply Hnothing; vm_compute; reflexivity.
Defined.

(** X19 on the example server: the table [t] can be got and exists; the
    dictionary [d] exists but cannot be got from a loader that does not
    have it. *)
Lemma exists_but_cannot_be_got_witness :
  outcome (isTableExist Example.context "t") Example.machine = Returned true
  ∧ outcome (isTableExist Example.failing_context "d") Example.machine = Returned true
  ∧ outcome (tryGetTable Example.getStructure Example.getNamesAndTypes
               Example.failing_context "d") Example.machine = Returned None.
Proof.
  destruct (exists_but_cannot_be_got Example.getStructure Example.getNamesAndTypes
              Example.context "t" Example.machine) as [Hgot _].
  destruct (exists_but_cannot_be_got Example.getStructure Example.getNamesAndTypes
              Example.failing_context "d" Example.machine) as [_ [_ Hmissing]].
  split.
  - apply Hgot. exists (Storage 1). vm_compute. reflexivity.
  - apply Hmissing. split_and!; vm_compute; reflexivity.
Defined.


